(** * BaseLearner: checkpoint I/O, logging and augmentation pipelines

    A shallow embedding of [back-end/www/base_learner.py].  The Python class
    threads three kinds of state: the learner object itself ([self.logger],
    [self.use_cuda], [self.image_size]), the model objects it is handed, and
    the process-wide world (file system, standard output, the registry of the
    [logging] module).  Methods are embedded as computations of a small
    state-and-exception monad over that world.  The parts of PyTorch and of
    [logging] the methods call are modelled after their documented
    behaviour. *)

From Stdlib Require Import Floats Ascii String ZArith.
From stdpp Require Import base gmap strings list.
From Equations Require Import Equations.

Local Open Scope string_scope.
Local Open Scope list_scope.
Local Open Scope nat_scope.

(** ** Python strings *)

Module PyStr.

(** [s[n:]] *)
Fixpoint drop (n : nat) (s : string) : string :=
  match n, s with
  | S n', String _ s' => drop n' s'
  | _, _ => s
  end.

(** [s.startswith(p)] *)
Definition startswith (s p : string) : bool := String.prefix p s.

(** [s.replace(old, new)] for a non-empty [old], written [String a old']:
    the string is scanned from the left, every occurrence found is replaced
    and the scan resumes after it, so that occurrences never overlap and
    the text produced by a replacement is not scanned again. *)
Equations? replace_ne (a : ascii) (old' new s : string) : string
  by wf (String.length s) lt :=
  replace_ne a old' new EmptyString := EmptyString;
  replace_ne a old' new (String c s') :=
    if startswith (String c s') (String a old')
    then new +:+ replace_ne a old' new (drop (String.length old') s')
    else String c (replace_ne a old' new s').
Proof.
  all: simpl; try lia.
  enough (Hdrop : ∀ n t, (String.length (drop n t) <= String.length t)%nat).
  { specialize (Hdrop (String.length old') s'). lia. }
  clear. intros n; induction n as [|n IH]; intros [|c t]; simpl; try lia.
  specialize (IH t). lia.
Qed.

(** With an empty [old], Python puts [new] before every character and at
    the end. *)
Fixpoint interleave (new s : string) : string :=
  match s with
  | EmptyString => new
  | String c s' => new +:+ String c (interleave new s')
  end.

Definition replace (s old new : string) : string :=
  match old with
  | EmptyString => interleave new s
  | String a old' => replace_ne a old' new s
  end.

(** [old in s], and [old in s[1:]]: an occurrence that does not start at
    the first character. *)
Fixpoint occurs (old s : string) : bool :=
  startswith s old ||
  match s with
  | EmptyString => false
  | String _ s' => occurs old s'
  end.

Definition occurs_inner (old s : string) : bool :=
  match s with
  | EmptyString => false
  | String _ s' => occurs old s'
  end.

End PyStr.

(** ** [collections.OrderedDict] with string keys

    Entries are kept in insertion order; assigning to a key that is already
    present replaces its value in place. *)

Module OrderedDict.
Section dict.
Context {V : Type}.

Definition t := list (string * V).

Definition keys (d : t) : list string := d.*1.

Fixpoint get (d : t) (k : string) : option V :=
  match d with
  | [] => None
  | (k', v) :: d' => if decide (k' = k) then Some v else get d' k
  end.

(** [d[k] = v] *)
Fixpoint set (d : t) (k : string) (v : V) : t :=
  match d with
  | [] => [(k, v)]
  | (k', v') :: d' =>
      if decide (k' = k) then (k', v) :: d' else (k', v') :: set d' k v
  end.

(** [new = OrderedDict(); for k, v in d.items(): new[f(k)] = v] *)
Definition rename_keys (f : string → string) (d : t) : t :=
  foldl (λ new '(k, v), set new (f k) v) [] d.

End dict.
Arguments t : clear implicits.
End OrderedDict.

(** ** Python objects and exceptions *)

Inductive exn :=
| AttributeError
| RuntimeError        (* raised by a strict [load_state_dict] on a mismatch *)
| FileNotFoundError
| UnboundLocalError.

Inductive Res (A : Type) :=
| Ok (a : A)
| Raise (e : exn).
Arguments Ok {A} a.
Arguments Raise {A} e.

(** The few Python values whose truth value the constructor looks at. A
    function object is a value of its own, distinct from what calling it
    returns. *)
Inductive pyobj :=
| PyNone
| PyBool (b : bool)
| PyFunction (call : unit → pyobj).

(** [bool(o)] *)
Definition truthy (o : pyobj) : bool :=
  match o with
  | PyNone => false
  | PyBool b => b
  | PyFunction _ => true
  end.

(** ** [logging] *)

Module Logging.

Inductive Level := NOTSET | DEBUG | INFO | WARNING | ERROR | CRITICAL.

Definition levelno (l : Level) : nat :=
  match l with
  | NOTSET => 0 | DEBUG => 10 | INFO => 20
  | WARNING => 30 | ERROR => 40 | CRITICAL => 50
  end.

(** A [RotatingFileHandler]. [hid] stands for the identity of the Python
    object: two handlers built by two constructor calls are different
    objects even when they write to the same file. *)
Record Handler := {
  hid : nat;
  baseFilename : string;
  mode : string;
  maxBytes : Z;
  backupCount : Z;
  formatter : option string
}.

Definition setFormatter (h : Handler) (fmt : string) : Handler :=
  {| hid := hid h; baseFilename := baseFilename h; mode := mode h;
     maxBytes := maxBytes h; backupCount := backupCount h;
     formatter := Some fmt |}.

Record Logger := {
  level : Level;
  handlers : list Handler
}.

(** What [getLogger] builds for a name it has not seen. *)
Definition fresh_logger : Logger := {| level := NOTSET; handlers := [] |}.

(** One line written by a handler to its file. *)
Record Line := {
  line_file : string;
  line_handler : nat;
  line_fmt : option string;
  line_level : Level;
  line_msg : string
}.

(** The root logger as the module creates it. *)
Definition fresh_root : Logger := {| level := WARNING; handlers := [] |}.

(** *** The hierarchy of names

    Logger names are dotted: the logger of a name that is a prefix of
    [name] ending just before a dot is an ancestor of the logger of
    [name], when it is registered. [Manager._fixupParents] looks for the
    parent from the last dot leftwards; after a dot at [i] whose prefix is
    not registered it goes on before [i - 1], and a dot at the very start
    makes no prefix. The parent's own parent is found the same way from
    the parent's name, that is from the dot before it on, nothing skipped.
    [ancestors_from n skip reg name] lists the ancestors whose names are
    shorter than [n], the nearest first. The parent is so the nearest
    registered prefix whatever the order in which the loggers were made;
    the one exception in CPython, a logger named by a prefix of the word
    [root] and made after its children, which keep the root for parent, is
    left out. *)
Fixpoint ancestors_from (n : nat) (skip : bool) (reg : gmap string Logger) (name : string)
  : list string :=
  match n with
  | 0 => []
  | S i =>
      if skip then ancestors_from i false reg name
      else
        match i, String.get i name with
        | S _, Some c =>
            if Ascii.eqb c "."
            then
              if decide (is_Some (reg !! String.substring 0 i name))
              then String.substring 0 i name :: ancestors_from i false reg name
              else ancestors_from i true reg name
            else ancestors_from i false reg name
        | _, _ => ancestors_from i false reg name
        end
  end.

Definition ancestors (reg : gmap string Logger) (name : string) : list string :=
  ancestors_from (String.length name) false reg name.

(** [Logger.getEffectiveLevel] over a logger, its ancestors and the root:
    the first level that is set. *)
Fixpoint first_level (chain : list Logger) : Level :=
  match chain with
  | [] => NOTSET
  | lg :: chain' =>
      match level lg with
      | NOTSET => first_level chain'
      | l => l
      end
  end.

Definition emit (h : Handler) (l : Level) (msg : string) : Line :=
  {| line_file := baseFilename h; line_handler := hid h;
     line_fmt := formatter h; line_level := l; line_msg := msg |}.

(** [Logger.removeHandler]: the first entry that is this handler object. *)
Fixpoint remove_handler (h : Handler) (hs : list Handler) : list Handler :=
  match hs with
  | [] => []
  | h' :: hs' =>
      if decide (hid h' = hid h) then hs' else h' :: remove_handler h hs'
  end.

(** [Logger.addHandler]: appended unless this object is already there. *)
Definition add_handler (h : Handler) (hs : list Handler) : list Handler :=
  if decide (hid h ∈ hid <$> hs) then hs else hs ++ [h].

End Logging.

(** ** [torch.nn.Module] *)

(** Tensors are opaque but for their shape, which a strict load compares. *)
Class Shaped (tensor : Type) := shape : tensor → list nat.

Section Torch.
Context {tensor : Type} `{!Shaped tensor}.

(** A module owns named parameters and buffers, and named child modules.
    PyTorch refuses a name that is empty or contains a dot. *)
Local Unset Elimination Schemes.
Inductive nn_Module :=
| Node (params : list (string * tensor)) (children : list (string * nn_Module)).
Local Set Elimination Schemes.

Definition own_params (m : nn_Module) : list (string * tensor) :=
  match m with Node ps _ => ps end.
Definition own_children (m : nn_Module) : list (string * nn_Module) :=
  match m with Node _ cs => cs end.

(** [nn.DataParallel(m)] registers [m] as its only child, named [module].
    Modules are trees of values here: that the wrapper and the wrapped model
    are one object in Python, so that a load into one shows in the other, is
    not represented, and nothing below is stated about a second reference
    to a model. *)
Definition DataParallel (m : nn_Module) : nn_Module := Node [] [("module", m)].

(** [Module.state_dict()]: own entries first, then the children's, each
    under the child's name followed by a dot. *)
Fixpoint state_dict_from (prefix : string) (m : nn_Module) : OrderedDict.t tensor :=
  match m with
  | Node ps cs =>
      ((λ '(n, v), (prefix +:+ n, v)) <$> ps) ++
      (fix sub (cs : list (string * nn_Module)) :=
         match cs with
         | [] => []
         | (n, c) :: cs' => state_dict_from (prefix +:+ n +:+ ".") c ++ sub cs'
         end) cs
  end.

Definition state_dict (m : nn_Module) : OrderedDict.t tensor :=
  state_dict_from "" m.

(** What a strict load leaves in the entry [key]: the value found in [sd]
    when it has the shape of the entry, the old value otherwise. *)
Definition loaded_value (sd : OrderedDict.t tensor) (key : string) (v : tensor) : tensor :=
  match OrderedDict.get sd key with
  | Some v' => if decide (shape v' = shape v) then v' else v
  | None => v
  end.

(** The copying pass of [Module.load_state_dict]: every entry of the module
    whose key is in [sd] takes the value found there, unless the shapes
    differ. *)
Fixpoint load_from (prefix : string) (sd : OrderedDict.t tensor) (m : nn_Module)
  : nn_Module :=
  match m with
  | Node ps cs =>
      Node ((λ '(n, v), (n, loaded_value sd (prefix +:+ n) v)) <$> ps)
        ((fix sub (cs : list (string * nn_Module)) :=
            match cs with
            | [] => []
            | (n, c) :: cs' => (n, load_from (prefix +:+ n +:+ ".") sd c) :: sub cs'
            end) cs)
  end.

(** The three error lists of a strict load. *)
Definition missing_keys (m : nn_Module) (sd : OrderedDict.t tensor) : list string :=
  filter (λ k, OrderedDict.get sd k = None) (OrderedDict.keys (state_dict m)).

Definition unexpected_keys (m : nn_Module) (sd : OrderedDict.t tensor) : list string :=
  filter (λ k, k ∉ OrderedDict.keys (state_dict m)) (OrderedDict.keys sd).

Definition size_mismatch (sd : OrderedDict.t tensor) (e : string * tensor) : bool :=
  match OrderedDict.get sd e.1 with
  | Some v' => bool_decide (shape v' ≠ shape e.2)
  | None => false
  end.

Definition size_mismatches (m : nn_Module) (sd : OrderedDict.t tensor)
  : list (string * tensor) :=
  filter (λ e, size_mismatch sd e) (state_dict m).

(** What [model.module] evaluates to: [Module.__getattr__] looks the name up
    among the parameters and buffers, then among the children. *)
Inductive attr :=
| AttrTensor (v : tensor)
| AttrModule (m : nn_Module).

Definition getattr_module (m : nn_Module) : Res attr :=
  match OrderedDict.get (own_params m) "module" with
  | Some v => Ok (AttrTensor v)
  | None =>
      match OrderedDict.get (own_children m) "module" with
      | Some c => Ok (AttrModule c)
      | None => Raise AttributeError
      end
  end.

(** [o.state_dict()] on such a value; a tensor has no such method. *)
Definition attr_state_dict (o : attr) : Res (OrderedDict.t tensor) :=
  match o with
  | AttrTensor _ => Raise AttributeError
  | AttrModule c => Ok (state_dict c)
  end.

Global Instance nn_Module_inhabited : Inhabited nn_Module := populate (Node [] []).

(** ** The world

    Model objects live in a heap and are passed by reference, as Python
    does; a method that fails half-way leaves its writes behind. The
    loggers of the [logging] module are the registry of named loggers and
    the root logger above them all; what handlers write goes to
    [log_lines], what the handler of last resort prints to [stderr]. *)
Record World := {
  heap : gmap nat nn_Module;
  dirs : gset string;
  files : gmap string (OrderedDict.t tensor);  (* checkpoint files *)
  stdout : list string;
  stderr : list string;
  loggers : gmap string Logging.Logger;        (* the registry behind getLogger *)
  root_logger : Logging.Logger;                (* the root, in no registry *)
  log_lines : list Logging.Line;               (* what handlers wrote, oldest first *)
  next_hid : nat
}.

Definition set_heap (f : gmap nat nn_Module → gmap nat nn_Module) (w : World) :=
  {| heap := f (heap w); dirs := dirs w; files := files w; stdout := stdout w;
     stderr := stderr w; loggers := loggers w; root_logger := root_logger w;
     log_lines := log_lines w; next_hid := next_hid w |}.
Definition set_dirs (f : gset string → gset string) (w : World) :=
  {| heap := heap w; dirs := f (dirs w); files := files w; stdout := stdout w;
     stderr := stderr w; loggers := loggers w; root_logger := root_logger w;
     log_lines := log_lines w; next_hid := next_hid w |}.
Definition set_files f (w : World) :=
  {| heap := heap w; dirs := dirs w; files := f (files w); stdout := stdout w;
     stderr := stderr w; loggers := loggers w; root_logger := root_logger w;
     log_lines := log_lines w; next_hid := next_hid w |}.
Definition set_stdout (f : list string → list string) (w : World) :=
  {| heap := heap w; dirs := dirs w; files := files w; stdout := f (stdout w);
     stderr := stderr w; loggers := loggers w; root_logger := root_logger w;
     log_lines := log_lines w; next_hid := next_hid w |}.
Definition set_stderr (f : list string → list string) (w : World) :=
  {| heap := heap w; dirs := dirs w; files := files w; stdout := stdout w;
     stderr := f (stderr w); loggers := loggers w; root_logger := root_logger w;
     log_lines := log_lines w; next_hid := next_hid w |}.
Definition set_loggers f (w : World) :=
  {| heap := heap w; dirs := dirs w; files := files w; stdout := stdout w;
     stderr := stderr w; loggers := f (loggers w); root_logger := root_logger w;
     log_lines := log_lines w; next_hid := next_hid w |}.
Definition set_log_lines f (w : World) :=
  {| heap := heap w; dirs := dirs w; files := files w; stdout := stdout w;
     stderr := stderr w; loggers := loggers w; root_logger := root_logger w;
     log_lines := f (log_lines w); next_hid := next_hid w |}.
Definition set_next_hid (f : nat → nat) (w : World) :=
  {| heap := heap w; dirs := dirs w; files := files w; stdout := stdout w;
     stderr := stderr w; loggers := loggers w; root_logger := root_logger w;
     log_lines := log_lines w; next_hid := f (next_hid w) |}.

(** ** The monad of methods: world passing with exceptions *)

Definition M (A : Type) : Type := World → World * Res A.

Global Instance M_ret : MRet M := λ A a w, (w, Ok a).
Global Instance M_bind : MBind M := λ A B k m w,
  match m w with
  | (w', Ok a) => k a w'
  | (w', Raise e) => (w', Raise e)
  end.
Definition raise {A} (e : exn) : M A := λ w, (w, Raise e).
(** [try: m  except: h] run in the world the failure left. *)
Definition try_except {A} (m : M A) (h : exn → M A) : M A :=
  λ w, match m w with
       | (w', Ok a) => (w', Ok a)
       | (w', Raise e) => h e w'
       end.
Definition lift {A} (r : Res A) : M A := λ w, (w, r).
Definition modify (f : World → World) : M unit := λ w, (f w, Ok tt).

End Torch.
Arguments nn_Module : clear implicits.
Arguments attr : clear implicits.
Arguments World : clear implicits.
Arguments M : clear implicits.


(** ** [os.path] *)

Module OsPath.

Definition is_slash (c : ascii) : bool := Ascii.eqb c "/".

(** [s.rstrip("/")] *)
Fixpoint rstrip_slash (s : string) : string :=
  match s with
  | EmptyString => EmptyString
  | String c s' =>
      match rstrip_slash s' with
      | EmptyString => if is_slash c then EmptyString else String c EmptyString
      | r => String c r
      end
  end.

(** [s[:s.rfind("/") + 1]], or [None] when [s] has no slash *)
Fixpoint through_last_slash (s : string) : option string :=
  match s with
  | EmptyString => None
  | String c s' =>
      match through_last_slash s' with
      | Some h => Some (String c h)
      | None => if is_slash c then Some (String c EmptyString) else None
      end
  end.

(** [os.path.dirname]: a head made of slashes only is kept as it is. *)
Definition dirname (p : string) : string :=
  match through_last_slash p with
  | None => EmptyString
  | Some h => match rstrip_slash h with EmptyString => h | r => r end
  end.

End OsPath.

(** ** The learner *)

(** [self.image_size] is read by [get_transform] and set by no method of the
    base class: an int or a pair, once a subclass has assigned it. *)
Inductive ImageSize :=
| SizeInt (n : Z)
| SizePair (h w : Z).

Record BaseLearner := {
  logger : option string;      (* the logger object, by its registry name *)
  use_cuda : bool;
  image_size : option ImageSize
}.

(** Arguments that may be [None] are options. *)
Section Learner.
Context {tensor : Type} `{!Shaped tensor}.
Implicit Types (w : World tensor) (self : BaseLearner).

(** *** Library calls *)

(** [print(msg)] *)
Definition print (msg : string) : M tensor unit :=
  modify (set_stdout (λ out, out ++ [msg])).

(** [logging.getLogger(name)]: the registered logger of that name, made
    and registered on first use. The root logger is not reached by a name:
    ["root"] names a logger like any other, as it did before Python 3.9. *)
Definition getLogger (name : string) : M tensor string :=
  modify (set_loggers (λ reg,
    match reg !! name with
    | Some _ => reg
    | None => <[name := Logging.fresh_logger]> reg
    end)) ;;
  mret name.

Definition the_logger w (name : string) : Logging.Logger :=
  default Logging.fresh_logger (loggers w !! name).

Definition update_logger (name : string) (f : Logging.Logger → Logging.Logger)
  : M tensor unit :=
  λ w, (set_loggers <[name := f (the_logger w name)]> w, Ok tt).

Definition setLevel (name : string) (l : Logging.Level) : M tensor unit :=
  update_logger name (λ lg,
    {| Logging.level := l; Logging.handlers := Logging.handlers lg |}).

Definition removeHandler (name : string) (h : Logging.Handler) : M tensor unit :=
  update_logger name (λ lg,
    {| Logging.level := Logging.level lg;
       Logging.handlers := Logging.remove_handler h (Logging.handlers lg) |}).

Definition addHandler (name : string) (h : Logging.Handler) : M tensor unit :=
  update_logger name (λ lg,
    {| Logging.level := Logging.level lg;
       Logging.handlers := Logging.add_handler h (Logging.handlers lg) |}).

(** [logger.handlers[:]] *)
Definition handlers_copy (name : string) : M tensor (list Logging.Handler) :=
  λ w, (w, Ok (Logging.handlers (the_logger w name))).

(** The logger of a name, its registered ancestors from the nearest on,
    and the root: the loggers a record of that logger passes through. *)
Definition logger_chain w (name : string) : list Logging.Logger :=
  the_logger w name ::
  (the_logger w <$> Logging.ancestors (loggers w) name) ++ [root_logger w].

(** [Logger.isEnabledFor] *)
Definition isEnabledFor w (name : string) (l : Logging.Level) : bool :=
  bool_decide (Logging.levelno (Logging.first_level (logger_chain w name))
               ≤ Logging.levelno l).

(** The handlers [Logger.callHandlers] finds along the chain. *)
Definition chain_handlers w (name : string) : list Logging.Handler :=
  mjoin (Logging.handlers <$> logger_chain w name).

(** [logger.info(msg)], [logger.warning(msg)], [logger.error(msg)]: when
    the logger is enabled for the level, each handler of the logger and of
    its ancestors writes one line; when there is no handler at all, the
    handler of last resort prints the message on standard error, from
    [WARNING] on. Loggers propagate and nothing filters, as the module sets
    them up. *)
Definition Logger_log (name : string) (l : Logging.Level) (msg : string)
  : M tensor unit :=
  λ w,
    if isEnabledFor w name l
    then
      match chain_handlers w name with
      | [] =>
          if bool_decide (Logging.levelno Logging.WARNING ≤ Logging.levelno l)
          then (set_stderr (λ err, err ++ [msg]) w, Ok tt)
          else (w, Ok tt)
      | hs => (set_log_lines (λ ls, ls ++ ((λ h, Logging.emit h l msg) <$> hs)) w, Ok tt)
      end
    else (w, Ok tt).

(** [logging.handlers.RotatingFileHandler(path, mode=.., maxBytes=..,
    backupCount=..)]: a new handler object each time. *)
Definition RotatingFileHandler (path md : string) (max_bytes backup_count : Z)
  : M tensor Logging.Handler :=
  λ w, (set_next_hid S w,
        Ok {| Logging.hid := next_hid w; Logging.baseFilename := path;
              Logging.mode := md; Logging.maxBytes := max_bytes;
              Logging.backupCount := backup_count; Logging.formatter := None |}).

(** Modelled from the spec: [check_and_create_dir], imported from [util],
    is not part of the sources at hand. The spec says of it that it
    ensures the parent directory of the path exists, creating it if
    needed. *)
Definition check_and_create_dir (path : string) : M tensor unit :=
  let d := OsPath.dirname path in
  modify (set_dirs (λ ds, if decide (d = "") then ds else {[ d ]} ∪ ds)).

(** [torch.save(state_dict, path)]: the file holds the mapping, replacing
    whatever was there. *)
Definition torch_save (sd : OrderedDict.t tensor) (path : string) : M tensor unit :=
  modify (set_files <[path := sd]>).

(** [torch.load(path)] *)
Definition torch_load (path : string) : M tensor (OrderedDict.t tensor) :=
  λ w, match files w !! path with
       | Some sd => (w, Ok sd)
       | None => (w, Raise FileNotFoundError)
       end.

(** The object behind a model reference. *)
Definition deref w (model : nat) : nn_Module tensor := heap w !!! model.

(** [model.state_dict()] *)
Definition Module_state_dict (model : nat) : M tensor (OrderedDict.t tensor) :=
  λ w, (w, Ok (state_dict (deref w model))).

(** [model.module.state_dict()] *)
Definition Module_module_state_dict (model : nat) : M tensor (OrderedDict.t tensor) :=
  λ w, (w, match getattr_module (deref w model) with
           | Ok o => attr_state_dict o
           | Raise e => Raise e
           end).

(** [model.load_state_dict(sd)], strict: the entries whose keys are found
    with the right shape are copied, then a key missing from [sd] or
    unknown to the model, or a value of another shape, makes the call
    fail. *)
Definition load_state_dict (model : nat) (sd : OrderedDict.t tensor) : M tensor unit :=
  λ w,
    let m := deref w model in
    let w' := set_heap <[model := load_from "" sd m]> w in
    match missing_keys m sd, unexpected_keys m sd, size_mismatches m sd with
    | [], [], [] => (w', Ok tt)
    | _, _, _ => (w', Raise RuntimeError)
    end.

(** [torch.cuda.is_available], the function; calling it would tell whether
    the machine has the hardware. *)
Definition torch_cuda_is_available (available : bool) : pyobj :=
  PyFunction (λ _, PyBool available).

(** *** [BaseLearner.__init__] *)
Definition init (cuda_available : bool) : BaseLearner :=
  {| logger := None;
     use_cuda := if truthy (torch_cuda_is_available cuda_available)
                 then true else false;
     image_size := None |}.

(** *** [BaseLearner.log] *)
Definition log self (msg : string) (lv : string) : M tensor unit :=
  print msg ;;
  match logger self with
  | None => mret tt
  | Some lg =>
      if decide (lv = "i") then Logger_log lg Logging.INFO msg
      else if decide (lv = "w") then Logger_log lg Logging.WARNING msg
      else if decide (lv = "e") then Logger_log lg Logging.ERROR msg
      else mret tt
  end.

(** The default of the [lv] argument. *)
Definition log_default self (msg : string) : M tensor unit := log self msg "i".

(** *** [BaseLearner.save] *)
Definition save self (model : option nat) (out_path : option string)
  : M tensor unit :=
  match model, out_path with
  | Some model, Some out_path =>
      log_default self ("Save model weights to " +:+ out_path) ;;
      sd ← try_except (Module_module_state_dict model)
             (λ e, match e with
                   | AttributeError => Module_state_dict model
                   | _ => raise e
                   end) ;
      check_and_create_dir out_path ;;
      torch_save sd out_path
  | _, _ => mret tt
  end.

(** *** [BaseLearner.load] *)

(** The mapping the [except] branch builds. *)
Definition new_state_dict (sd : OrderedDict.t tensor) : OrderedDict.t tensor :=
  OrderedDict.rename_keys (λ k, PyStr.replace k "module." "") sd.

(** The [except] branch. *)
Definition load_fallback self (model : nat) (in_path : string) : M tensor unit :=
  log_default self "Weights were from nn.DataParallel..." ;;
  log_default self "Remove 'module.' prefix from state_dict keys..." ;;
  sd ← torch_load in_path ;
  load_state_dict model (new_state_dict sd).

(** The [try] branch. *)
Definition load_direct (model : nat) (in_path : string) : M tensor unit :=
  sd ← torch_load in_path ;
  load_state_dict model sd.

Definition load self (model : option nat) (in_path : option string)
  : M tensor unit :=
  match model, in_path with
  | Some model, Some in_path =>
      log_default self ("Load model weights from " +:+ in_path) ;;
      try_except (load_direct model in_path)
        (λ _, load_fallback self model in_path)
  | _, _ => mret tt
  end.

(** *** [BaseLearner.create_logger]

    The method assigns [self.logger]; here it returns the learner so
    changed. *)
Definition create_logger self (log_path : option string) : M tensor BaseLearner :=
  match log_path with
  | None => mret self
  | Some log_path =>
      check_and_create_dir log_path ;;
      handler ← RotatingFileHandler log_path "a" 100000000 200 ;
      let formatter := "[%(asctime)s] %(levelname)s: %(message)s" in
      let handler := Logging.setFormatter handler formatter in
      lg ← getLogger log_path ;
      setLevel lg Logging.INFO ;;
      old ← handlers_copy lg ;
      foldr (λ hdlr rest, removeHandler lg hdlr ;; rest) (mret tt) old ;;
      addHandler lg handler ;;
      mret {| logger := Some lg; use_cuda := use_cuda self;
              image_size := image_size self |}
  end.

End Learner.

(** ** The augmentation pipeline *)

Module Transforms.

#[local] Set Warnings "-inexact-float".

(** Numeric literals, as written in the source: ints and binary64 floats. *)
Inductive num :=
| Int (z : Z)
| Float (f : float).

(** The constructors of [video_transforms], each with the arguments the
    learner passes; an argument left out is [None]. *)
Inductive Transform :=
| ColorJitter (brightness contrast saturation : option num) (hue : option (num * num))
| RandomResizedCrop (size : ImageSize) (scale ratio : num * num)
| RandomPerspective (anglex angley anglez shear : num)
| RandomHorizontalFlip (p : num)
| RandomErasing (p : num) (scale ratio : num * num) (value : string)
| Resize (size : ImageSize)
| Normalize (mean std : list num).

(** [torchvision.transforms.Compose] *)
Inductive Compose :=
| ComposeOf (transforms : list Transform).

Definition steps (c : Compose) : list Transform :=
  match c with ComposeOf ts => ts end.

(** [self.image_size] *)
Definition getattr_image_size (self : BaseLearner) : Res ImageSize :=
  match image_size self with
  | Some sz => Ok sz
  | None => Raise AttributeError
  end.

(** The mean and scale picked by the first conditional. *)
Definition mean_std (mode : string) : option (list num * list num) :=
  if decide (mode = "rgb")
  then Some ([Float 127.5; Float 127.5; Float 127.5],
             [Float 127.5; Float 127.5; Float 127.5])
  else if decide (mode = "flow")
  then Some ([Float 127.5; Float 127.5], [Float 127.5; Float 127.5])
  else None.

(** The colour jitter of the training branch: [cj] is bound in two of the
    three cases of the second conditional on [mode]. *)
Definition color_jitter (mode : string) : option Transform :=
  if decide (mode = "rgb")
  then Some (ColorJitter (Some (Float 0.3)) (Some (Float 0.3)) (Some (Float 0.3))
               (Some (Float (-0.1), Float 0.1)))
  else if decide (mode = "flow")
  then Some (ColorJitter (Some (Float 0.3)) (Some (Float 0.3)) None None)
  else None.

(** [BaseLearner.get_transform(mode, phase=None)] *)
Definition get_transform (self : BaseLearner) (mode : string) (phase : option string)
  : Res (option Compose) :=
  match mean_std mode with
  | None => Ok None
  | Some (mean, std) =>
      let nm := Normalize mean std in
      if decide (phase = Some "train") then
        let cj := color_jitter mode in
        match getattr_image_size self with
        | Raise e => Raise e
        | Ok sz =>
            let rrc := RandomResizedCrop sz (Float 0.9, Int 1)
                         (Float (3 / 4), Float (4 / 3)) in
            let rp := RandomPerspective (Int 3) (Int 3) (Int 3) (Int 3) in
            let rhf := RandomHorizontalFlip (Float 0.5) in
            let re := RandomErasing (Float 0.5) (Float 0.002, Float 0.008)
                        (Float 0.3, Float 3.3) "random" in
            match cj with
            | Some cj => Ok (Some (ComposeOf [cj; rrc; rp; rhf; re; re; nm]))
            | None => Raise UnboundLocalError
            end
        end
      else
        match getattr_image_size self with
        | Raise e => Raise e
        | Ok sz => Ok (Some (ComposeOf [Resize sz; nm]))
        end
  end.

End Transforms.

(** ** Runs of method calls

    A caller holds a learner and calls its methods one after the other; an
    exception ends the call that raised it and leaves the world as the call
    left it. *)

Inductive call :=
| CallSave (model : option nat) (out_path : option string)
| CallLoad (model : option nat) (in_path : option string)
| CallLog (msg lv : string)
| CallGetTransform (mode : string) (phase : option string)
| CallCreateLogger (log_path : option string).

Section Runs.
Context {tensor : Type} `{!Shaped tensor}.

Definition step (c : call) (st : BaseLearner * World tensor)
  : BaseLearner * World tensor :=
  let '(self, w) := st in
  match c with
  | CallSave model out_path => (self, (save self model out_path w).1)
  | CallLoad model in_path => (self, (load self model in_path w).1)
  | CallLog msg lv => (self, (log self msg lv w).1)
  | CallGetTransform mode phase =>
      let _ := Transforms.get_transform self mode phase in (self, w)
  | CallCreateLogger log_path =>
      match create_logger self log_path w with
      | (w', Ok self') => (self', w')
      | (w', Raise _) => (self, w')
      end
  end.

Definition run (cs : list call) (st : BaseLearner * World tensor)
  : BaseLearner * World tensor :=
  foldl (λ st c, step c st) st cs.

(** [create_logger] called [n] times in a row with the same argument. *)
Fixpoint create_logger_times (n : nat) (self : BaseLearner) (log_path : option string)
  : M tensor BaseLearner :=
  match n with
  | 0 => mret self
  | S n' => self' ← create_logger self log_path ; create_logger_times n' self' log_path
  end.

End Runs.

(** ** Statements to be compared with the code *)

(** Removing a leading ["module."] and nothing else: what stripping a prefix
    means. *)
Definition strip_leading_prefix (k : string) : string :=
  if PyStr.startswith k "module." then PyStr.drop 7 k else k.

Section Statements.
Context {tensor : Type} `{!Shaped tensor}.
Implicit Types (w : World tensor) (self : BaseLearner).

(** The mapping the fallback would build if it stripped a leading prefix
    only. *)
Definition prefix_stripped_dict (sd : OrderedDict.t tensor) : OrderedDict.t tensor :=
  OrderedDict.rename_keys strip_leading_prefix sd.

(** The mapping [save] writes for a model: that of its [module] child when
    it has one, its own otherwise. *)
Definition saved_state_dict (m : nn_Module tensor) : OrderedDict.t tensor :=
  match getattr_module m with
  | Ok (AttrModule c) => state_dict c
  | _ => state_dict m
  end.




End Statements.

(** The pipeline shape for the two modalities, on every learner. *)
Definition pipeline_shape (self : BaseLearner) (mode : string) (phase : option string)
  : Prop :=
  mode = "rgb" ∨ mode = "flow" →
  (phase = Some "train" →
   ∃ cj rrc rp rhf re nm,
     Transforms.get_transform self mode phase
     = Ok (Some (Transforms.ComposeOf [cj; rrc; rp; rhf; re; re; nm]))) ∧
  (phase ≠ Some "train" →
   ∃ sz mean std,
     Transforms.get_transform self mode phase
     = Ok (Some (Transforms.ComposeOf
                   [Transforms.Resize sz; Transforms.Normalize mean std]))).


(** ** Concrete data for the examples: integers stand for tensors *)

(** Integers as tensors are scalars, all of one shape; lists of integers
    are vectors, shaped by their length. *)
Global Instance Z_shaped : Shaped Z := λ _, [].
Global Instance list_Z_shaped : Shaped (list Z) := λ v, [length v].

Module Sample.

Definition empty_world : World Z :=
  {| heap := ∅; dirs := ∅; files := ∅; stdout := []; stderr := []; loggers := ∅;
     root_logger := Logging.fresh_root; log_lines := []; next_hid := 0 |}.

(** The same with vectors for tensors. *)
Definition empty_world_of_vectors : World (list Z) :=
  {| heap := ∅; dirs := ∅; files := ∅; stdout := []; stderr := []; loggers := ∅;
     root_logger := Logging.fresh_root; log_lines := []; next_hid := 0 |}.

(** A layer with one weight vector. *)
Definition linear (weight : list Z) : nn_Module (list Z) :=
  Node [] [("fc", Node [("weight", weight)] [])].

(** A network with one convolution. *)
Definition net (weight bias : Z) : nn_Module Z :=
  Node [] [("conv", Node [("weight", weight); ("bias", bias)] [])].

(** A network whose only layer is an attribute called [submodule]. *)
Definition sub_net (weight : Z) : nn_Module Z :=
  Node [] [("submodule", Node [("weight", weight)] [])].

Definition with_models (ms : list (nat * nn_Module Z)) (w : World Z) : World Z :=
  set_heap (λ _, list_to_map ms) w.

Definition with_file (path : string) (sd : OrderedDict.t Z) (w : World Z) : World Z :=
  set_files <[path := sd]> w.

(** A learner of a subclass that has set its image size. *)
Definition sized_learner : BaseLearner :=
  {| logger := None; use_cuda := true; image_size := Some (SizeInt 224) |}.

End Sample.

(** ** Auxiliary definitions of the proofs *)

Definition with_logger (self : BaseLearner) (lg : string) : BaseLearner :=
  {| logger := Some lg; use_cuda := use_cuda self; image_size := image_size self |}.

(** The handler [create_logger] builds when [n] handlers were built before. *)
Definition new_handler (p : string) (n : nat) : Logging.Handler :=
  {| Logging.hid := n; Logging.baseFilename := p; Logging.mode := "a";
     Logging.maxBytes := 100000000; Logging.backupCount := 200;
     Logging.formatter := Some "[%(asctime)s] %(levelname)s: %(message)s" |}.

Definition remove_all (old cur : list Logging.Handler) : list Logging.Handler :=
  foldl (λ cur h, Logging.remove_handler h cur) cur old.

Definition with_handlers (L : Logging.Logger) (hs : list Logging.Handler) : Logging.Logger :=
  {| Logging.level := Logging.level L; Logging.handlers := hs |}.

(** The severity [log] gives a line for each value of [lv]. *)
Definition logged_level (lv : string) : option Logging.Level :=
  if decide (lv = "i") then Some Logging.INFO
  else if decide (lv = "w") then Some Logging.WARNING
  else if decide (lv = "e") then Some Logging.ERROR
  else None.

Definition rename_step {V} (f : string → string) (new : OrderedDict.t V) (e : string * V)
  : OrderedDict.t V :=
  OrderedDict.set new (f e.1) e.2.

(** The checkpoint a wrapped model gives when its own [state_dict] is saved. *)
Definition prefixed {V} (sd : OrderedDict.t V) : OrderedDict.t V :=
  prod_map (λ k, "module." +:+ k) id <$> sd.

Section AuxDefs.
Context {tensor : Type} `{!Shaped tensor}.
Implicit Types (w : World tensor) (self : BaseLearner).

(** The lines written for one message at level [l] through the learner's
    logger: one for each handler of the logger, of its ancestors and of the
    root. *)
Definition lines_of self w (l : Logging.Level) (msg : string) : list Logging.Line :=
  match logger self with
  | None => []
  | Some lg =>
      if isEnabledFor w lg l
      then (λ h, Logging.emit h l msg) <$> chain_handlers w lg
      else []
  end.

(** What the handler of last resort prints for it on standard error. *)
Definition last_resort_of self w (l : Logging.Level) (msg : string) : list string :=
  match logger self with
  | None => []
  | Some lg =>
      if isEnabledFor w lg l
      then match chain_handlers w lg with
           | [] => if bool_decide (Logging.levelno Logging.WARNING ≤ Logging.levelno l)
                   then [msg] else []
           | _ => []
           end
      else []
  end.

(** The handlers of the ancestors of a logger and of the root. *)
Definition ancestor_handlers w (name : string) : list Logging.Handler :=
  mjoin (Logging.handlers <$>
           (the_logger w <$> Logging.ancestors (loggers w) name) ++ [root_logger w]).

Definition logged self w (msg lv : string) : list Logging.Line :=
  match logged_level lv with
  | Some l => lines_of self w l msg
  | None => []
  end.

Definition logged_err self w (msg lv : string) : list string :=
  match logged_level lv with
  | Some l => last_resort_of self w l msg
  | None => []
  end.

(** The world after [log]: the message on standard output, [ls] in the log. *)
Definition after_log (msg : string) (ls : list Logging.Line) w : World tensor :=
  set_log_lines (λ old, old ++ ls) (set_stdout (λ out, out ++ [msg]) w).

(** The world after a [save] that had both arguments. *)
Definition after_save self (model : nat) (out_path : string) w : World tensor :=
  let msg := "Save model weights to " +:+ out_path in
  let d := OsPath.dirname out_path in
  set_files <[out_path := saved_state_dict (deref w model)]>
    (set_dirs (λ ds, if decide (d = "") then ds else {[ d ]} ∪ ds)
       (after_log msg (logged self w msg "i") w)).

(** The world after [create_logger] with a path. *)
Definition after_create_logger (p : string) w : World tensor :=
  set_loggers <[p := {| Logging.level := Logging.INFO;
                        Logging.handlers := [new_handler p (next_hid w)] |}]>
    (set_next_hid S
       (set_dirs (λ ds, if decide (OsPath.dirname p = "") then ds
                        else {[ OsPath.dirname p ]} ∪ ds) w)).

(** What a strict load leaves in an entry of the model. *)
Definition loaded_entry (sd : OrderedDict.t tensor) (e : string * tensor) : string * tensor :=
  (e.1, loaded_value sd e.1 e.2).

(** The values of the mapping have the shapes of the entries of the model. *)
Definition shapes_agree (m : nn_Module tensor) (sd : OrderedDict.t tensor) : Prop :=
  ∀ k v v', (k, v) ∈ state_dict m → OrderedDict.get sd k = Some v' → shape v' = shape v.

(** Induction on modules, with the property known for every child. *)
Fixpoint nn_Module_ind (P : nn_Module tensor → Prop)
  (HNode : ∀ ps cs, Forall (λ nc, P nc.2) cs → P (Node ps cs))
  (m : nn_Module tensor) : P m :=
  match m with
  | Node ps cs =>
      HNode ps cs
        ((fix sub (cs : list (string * nn_Module tensor)) : Forall (λ nc, P nc.2) cs :=
            match cs with
            | [] => List.Forall_nil _
            | nc :: cs' =>
                List.Forall_cons _ nc cs' (nn_Module_ind P HNode nc.2) (sub cs')
            end) cs)
  end.

End AuxDefs.


(** What a load into a model leaves alone: checkpoint files, directories,
    loggers, and the keys of the model. *)
Definition touches_only {tensor} (model : nat) (w w' : World tensor) : Prop :=
  files w' = files w ∧ dirs w' = dirs w ∧
  loggers w' = loggers w ∧ root_logger w' = root_logger w ∧
  OrderedDict.keys (state_dict (deref w' model))
  = OrderedDict.keys (state_dict (deref w model)).

Ltac unfold_M :=
  unfold mbind, mret, M_bind, M_ret, modify, raise, try_except, lift in *.

(** * Properties *)

(** ** Strings *)

Module PyStrFacts.
Import PyStr.

Lemma app_nil t : "" +:+ t = t.
Proof. done. Qed.

Lemma app_cons a p t : String a p +:+ t = String a (p +:+ t).
Proof. done. Qed.

Lemma startswith_app s p : startswith s p = true ↔ ∃ t, s = p +:+ t.
Proof.
  unfold startswith. revert s. induction p as [|a p IH]; intros [|c s]; simpl.
  - split; [intros _; by exists "" | done].
  - split; [intros _; by exists (String c s) | done].
  - split; [done | by intros [t ?]].
  - setoid_rewrite app_cons. destruct (ascii_dec a c) as [->|Hne].
    + rewrite IH. split; intros [t Ht]; exists t; congruence.
    + split; [done | intros [t Ht]; congruence].
Qed.

Lemma drop_app p t : drop (String.length p) (p +:+ t) = t.
Proof. induction p as [|a p IH]; [by destruct t | by rewrite app_cons]. Qed.

Lemma length_app (p t : string) :
  String.length (p +:+ t) = String.length p + String.length t.
Proof. induction p as [|a p IH]; [done | rewrite app_cons; simpl; by rewrite IH]. Qed.

(** *** Replacing by the empty string *)

Section replace_by_nothing.
Variables (a : ascii) (old' : string).
Abbreviation old := (String a old').
Abbreviation R := (replace_ne a old' "").

Lemma replace_ne_cons c s :
  R (String c s)
  = if startswith (String c s) old then R (drop (String.length old') s)
    else String c (R s).
Proof. by rewrite replace_ne_equation_2. Qed.

Lemma replace_ne_app t : R (old +:+ t) = R t.
Proof.
  rewrite app_cons, replace_ne_cons.
  assert (startswith (String a (old' +:+ t)) old = true) as ->.
  { apply startswith_app. by exists t. }
  by rewrite drop_app.
Qed.

Lemma occurs_cons c s :
  occurs old (String c s) = startswith (String c s) old || occurs old s.
Proof. done. Qed.

(** The result is never longer, and shorter by a whole [old] at least when
    there is an occurrence. *)
Lemma replace_ne_length s :
  String.length (R s) ≤ String.length s ∧
  (occurs old s = true → String.length (R s) + String.length old ≤ String.length s).
Proof.
  remember (String.length s) as n eqn:Hn. revert s Hn.
  induction n as [n IH] using lt_wf_ind. intros [|c s] ->.
  - rewrite replace_ne_equation_1. by split.
  - rewrite replace_ne_cons, occurs_cons.
    destruct (startswith (String c s) old) eqn:Hs.
    + apply startswith_app in Hs as [t Ht]. rewrite app_cons in Ht.
      injection Ht as -> ->. rewrite drop_app.
      destruct (IH (String.length t)) with (s := t) as [Hle _]; [|done|].
      * simpl. rewrite length_app. lia.
      * simpl. rewrite length_app. split; [lia | intros _; lia].
    + destruct (IH (String.length s)) with (s := s) as [Hle Hocc]; [simpl; lia|done|].
      simpl. split; [lia | intros Ho; specialize (Hocc Ho); simpl in Hocc; lia].
Qed.

Lemma replace_ne_id s : occurs old s = false → R s = s.
Proof.
  induction s as [|c s IH]; [by rewrite replace_ne_equation_1|].
  rewrite occurs_cons. intros [Hs Ho]%orb_false_elim.
  by rewrite replace_ne_cons, Hs, IH.
Qed.

Lemma occurs_replace_ne s : occurs old (R s) = true → occurs old s = true.
Proof.
  destruct (occurs old s) eqn:Ho; [done|]. by rewrite replace_ne_id, Ho.
Qed.

End replace_by_nothing.

(** *** The prefix of [nn.DataParallel] *)

Abbreviation dp := "module.".
Abbreviation unprefix k := (replace k "module." "").

Lemma occurs_inner_prefixed t : occurs_inner dp (dp +:+ t) = occurs dp t.
Proof. rewrite !app_cons, app_nil. by simpl. Qed.


Lemma unprefix_app t : unprefix (dp +:+ t) = unprefix t.
Proof. apply replace_ne_app. Qed.

Lemma unprefix_id k : occurs dp k = false → unprefix k = k.
Proof. apply replace_ne_id. Qed.

Lemma strip_leading_prefix_app t : strip_leading_prefix (dp +:+ t) = t.
Proof.
  unfold strip_leading_prefix.
  assert (startswith (dp +:+ t) dp = true) as -> by (apply startswith_app; eauto).
  apply (drop_app dp).
Qed.

Lemma strip_leading_prefix_other k :
  startswith k dp = false → strip_leading_prefix k = k.
Proof. unfold strip_leading_prefix. by intros ->. Qed.

Lemma occurs_inner_occurs k :
  startswith k dp = false → occurs_inner dp k = occurs dp k.
Proof.
  destruct k as [|c k]; [done|]. simpl occurs_inner. rewrite occurs_cons. by intros ->.
Qed.

(** With an occurrence past the first character, [replace] removes more
    than a leading prefix does. *)
Lemma unprefix_shorter k :
  occurs_inner dp k = true →
  String.length (unprefix k) < String.length (strip_leading_prefix k).
Proof.
  intros Hin. destruct (startswith k dp) eqn:Hs.
  - apply startswith_app in Hs as [t ->].
    rewrite occurs_inner_prefixed in Hin.
    rewrite unprefix_app, strip_leading_prefix_app.
    destruct (replace_ne_length "m" "odule." t) as [_ Hlen].
    specialize (Hlen Hin). simpl in Hlen. unfold replace. lia.
  - rewrite strip_leading_prefix_other by done.
    rewrite occurs_inner_occurs in Hin by done.
    destruct (replace_ne_length "m" "odule." k) as [_ Hlen].
    specialize (Hlen Hin). simpl in Hlen. unfold replace. lia.
Qed.

Lemma strip_leading_prefix_occurs k :
  occurs_inner dp k = true → occurs dp (strip_leading_prefix k) = true.
Proof.
  intros Hin. destruct (startswith k dp) eqn:Hs.
  - apply startswith_app in Hs as [t ->].
    by rewrite strip_leading_prefix_app, <- occurs_inner_prefixed.
  - by rewrite strip_leading_prefix_other, <- occurs_inner_occurs.
Qed.

(** What [replace] returns can contain the prefix again, but only when the
    key had an inner occurrence. *)
Lemma unprefix_occurs k :
  occurs dp (unprefix k) = true → occurs_inner dp k = true.
Proof.
  destruct (startswith k dp) eqn:Hs.
  - apply startswith_app in Hs as [t ->].
    rewrite unprefix_app, occurs_inner_prefixed. apply occurs_replace_ne.
  - rewrite occurs_inner_occurs by done. apply occurs_replace_ne.
Qed.

Lemma unprefix_ne_strip k :
  occurs_inner dp k = true → unprefix k ≠ strip_leading_prefix k.
Proof. intros Hin Heq. apply unprefix_shorter in Hin. rewrite Heq in Hin. lia. Qed.

(** The prefix does not overlap itself: an occurrence that starts the string
    cannot reach into one that starts later. *)
Lemma startswith_through a b :
  startswith a dp = false → startswith (a +:+ dp +:+ b) dp = true → a = "".
Proof.
  intros Ha [t Ht]%startswith_app.
  destruct a as [|c1 [|c2 [|c3 [|c4 [|c5 [|c6 [|c7 a]]]]]]]; [done|..];
    rewrite ?app_cons, ?app_nil in Ht;
    repeat (let E := fresh in injection Ht as E Ht; try discriminate E; subst);
    try discriminate Ht; try done.
  exfalso. revert Ha. unfold startswith. simpl. by destruct a.
Qed.

(** The first occurrence goes, and the scan goes on behind it. *)
Lemma unprefix_first_occurrence a b :
  occurs dp a = false → unprefix (a +:+ dp +:+ b) = a +:+ unprefix b.
Proof.
  induction a as [|c a IH]; intros Ho.
  - by rewrite !app_nil, unprefix_app.
  - rewrite occurs_cons in Ho. apply orb_false_elim in Ho as [Hs Ho].
    rewrite (app_cons c a). unfold replace. rewrite replace_ne_cons.
    destruct (startswith (String c (a +:+ dp +:+ b)) dp) eqn:Hs'.
    + rewrite <- app_cons in Hs'. by apply startswith_through in Hs'.
    + rewrite (app_cons c a). f_equal. by apply IH.
Qed.

End PyStrFacts.

(** ** Ordered dictionaries *)

Module OrderedDictFacts.
Import OrderedDict.

Section facts.
Context {V : Type}.
Implicit Types (d : OrderedDict.t V) (k x : string).

Lemma get_None d k : get d k = None ↔ k ∉ keys d.
Proof.
  unfold keys. induction d as [|[k' v] d IH]; simpl.
  - split; [intros _; apply not_elem_of_nil | done].
  - case_decide as Hk; rewrite not_elem_of_cons.
    + split; [done | intros [? _]; congruence].
    + rewrite IH. intuition congruence.
Qed.

Lemma keys_set d k v x : x ∈ keys (set d k v) ↔ x = k ∨ x ∈ keys d.
Proof.
  unfold keys. induction d as [|[k' v'] d IH]; simpl.
  - rewrite list_elem_of_singleton. split; [by left | intros [?|H]; [done|]].
    by apply elem_of_nil in H.
  - case_decide as Hk; simpl; rewrite !elem_of_cons.
    + subst k'. tauto.
    + rewrite IH. tauto.
Qed.

Lemma set_fresh d k v : k ∉ keys d → set d k v = d ++ [(k, v)].
Proof.
  unfold keys. induction d as [|[k' v'] d IH]; simpl; [done|].
  rewrite not_elem_of_cons. intros [Hne Hnot].
  case_decide; [congruence|]. by rewrite IH.
Qed.

Lemma rename_keys_foldl f d : rename_keys f d = foldl (rename_step f) [] d.
Proof.
  unfold rename_keys. generalize (@nil (string * V)).
  induction d as [|[k v] d IH]; intros acc; simpl; [done|]. apply IH.
Qed.

Lemma keys_foldl_rename f d acc x :
  x ∈ keys (foldl (rename_step f) acc d)
  ↔ x ∈ keys acc ∨ ∃ k, k ∈ keys d ∧ x = f k.
Proof.
  revert acc. induction d as [|[k v] d IH]; intros acc; simpl.
  - split; [by left | intros [?|(k & Hk & _)]; [done|]].
    by apply elem_of_nil in Hk.
  - rewrite IH. change (rename_step f acc (k, v)) with (set acc (f k) v).
    rewrite keys_set.
    unfold keys; simpl. setoid_rewrite elem_of_cons.
    split.
    + intros [[->|?]|(k' & ? & ->)]; eauto.
    + intros [?|(k' & [->|?] & ->)]; eauto.
Qed.

(** The keys of a renamed dictionary are the renamed keys. *)
Lemma keys_rename_keys f d x :
  x ∈ keys (rename_keys f d) ↔ ∃ k, k ∈ keys d ∧ x = f k.
Proof.
  rewrite rename_keys_foldl, keys_foldl_rename. split; [|by right].
  intros [H|?]; [|done]. by apply elem_of_nil in H.
Qed.

Lemma same_lookups_same_keys d1 d2 :
  (∀ k, get d1 k = get d2 k) → ∀ k, k ∈ keys d1 ↔ k ∈ keys d2.
Proof.
  intros Heq k. specialize (Heq k).
  destruct (decide (k ∈ keys d1)) as [H1|H1], (decide (k ∈ keys d2)) as [H2|H2];
    try tauto; exfalso.
  - apply get_None in H2. rewrite <- Heq in H2. by apply get_None in H2.
  - apply get_None in H1. rewrite Heq in H1. by apply get_None in H1.
Qed.

Lemma foldl_rename_fresh f d acc :
  NoDup (keys acc ++ (f <$> keys d)) →
  foldl (rename_step f) acc d = acc ++ (prod_map f id <$> d).
Proof.
  revert acc. induction d as [|[k v] d IH]; intros acc Hnd; simpl.
  - by rewrite app_nil_r.
  - unfold keys in Hnd. simpl in Hnd.
    change (rename_step f acc (k, v)) with (set acc (f k) v).
    apply NoDup_app in Hnd as Hnd'. destruct Hnd' as (_ & Hdisj & _).
    rewrite set_fresh.
    2:{ intros Hin. apply (Hdisj _ Hin). by left. }
    rewrite IH.
    + by rewrite <- app_assoc.
    + unfold keys. rewrite fmap_app. simpl. by rewrite <- app_assoc.
Qed.

(** When no two keys are renamed to the same one, renaming keeps every
    entry, in order. *)
Lemma rename_keys_fresh f d :
  NoDup (f <$> keys d) → rename_keys f d = prod_map f id <$> d.
Proof. intros Hnd. rewrite rename_keys_foldl. by apply foldl_rename_fresh. Qed.

End facts.
End OrderedDictFacts.

Module OrderedDictMore.
Import OrderedDict.
Section more.
Context {V : Type}.
Implicit Types (d : OrderedDict.t V) (k x : string).

Lemma get_set d k v x :
  get (set d k v) x = if decide (k = x) then Some v else get d x.
Proof.
  induction d as [|[k' v'] d IH]; simpl.
  - by case_decide.
  - destruct (decide (k' = k)) as [->|Hne]; simpl.
    + by repeat case_decide.
    + rewrite IH. repeat case_decide; congruence.
Qed.

Lemma get_app d1 d2 x :
  get (d1 ++ d2) x = match get d1 x with Some v => Some v | None => get d2 x end.
Proof.
  induction d1 as [|[k v] d1 IH]; simpl; [done|]. by case_decide.
Qed.

Lemma keys_set_eq d k v :
  keys (set d k v) = if decide (k ∈ keys d) then keys d else keys d ++ [k].
Proof.
  unfold keys. induction d as [|[k' v'] d IH].
  - rewrite decide_False; [done | apply not_elem_of_nil].
  - cbn [set]. destruct (decide (k' = k)) as [->|Hne].
    + rewrite decide_True; [done | by left].
    + cbn [fmap list_fmap fst] in *. rewrite IH.
      destruct (decide (k ∈ d.*1)) as [Hin|Hin].
      * rewrite decide_True; [done | by right].
      * rewrite decide_False; [done|].
        intros [?|?]%elem_of_cons; congruence.
Qed.

Lemma NoDup_keys_set d k v : NoDup (keys d) → NoDup (keys (set d k v)).
Proof.
  intros Hnd. rewrite keys_set_eq. case_decide as H; [done|].
  apply NoDup_app. split; [done|]. split; [|apply NoDup_singleton].
  intros x Hx ->%list_elem_of_singleton. done.
Qed.

Lemma get_Some_elem d x v : get d x = Some v → (x, v) ∈ d.
Proof.
  induction d as [|[k' v'] d IH]; simpl; [done|].
  case_decide as Hk; [intros [= ->]; subst; by left|]. intros ?. right. by apply IH.
Qed.

Lemma length_set d k v : length (set d k v) ≤ S (length d).
Proof.
  induction d as [|[k' v'] d IH]; simpl; [done|]. case_decide; simpl; lia.
Qed.

Lemma foldl_rename_invariant f d acc :
  NoDup (keys acc) →
  NoDup (keys (foldl (rename_step f) acc d)) ∧
  length (foldl (rename_step f) acc d) ≤ length acc + length d ∧
  ∀ x, get (foldl (rename_step f) acc d) x
       = match get (reverse (prod_map f id <$> d)) x with
         | Some v => Some v
         | None => get acc x
         end.
Proof.
  revert acc. induction d as [|[k v] d IH]; intros acc Hnd; simpl.
  - split; [done|]. split; [lia|done].
  - change (rename_step f acc (k, v)) with (set acc (f k) v).
    destruct (IH (set acc (f k) v)) as (H1 & H2 & H3); [by apply NoDup_keys_set|].
    split; [done|]. split.
    + pose proof (length_set acc (f k) v). lia.
    + intros x. rewrite H3, reverse_cons, get_app, get_set. simpl.
      destruct (get (reverse _) x); [done|]. by case_decide.
Qed.
End more.
End OrderedDictMore.

(** ** The hierarchy of loggers *)

Module LoggingFacts.
Import Logging.

Lemma length_substring (i : nat) (s : string) :
  i ≤ String.length s → String.length (String.substring 0 i s) = i.
Proof.
  revert s. induction i as [|i IH]; intros [|c s]; simpl; intros Hi; try done; try lia.
  by rewrite IH by lia.
Qed.

(** An ancestor is registered and has a shorter name. *)
Lemma ancestors_from_shorter n skip reg name a :
  n ≤ String.length name →
  a ∈ ancestors_from n skip reg name → String.length a < n ∧ is_Some (reg !! a).
Proof.
  revert skip. induction n as [|n IH]; intros skip Hn; cbn [ancestors_from].
  - by intros ?%elem_of_nil.
  - assert (Hrec : ∀ skip', a ∈ ancestors_from n skip' reg name →
                            String.length a < S n ∧ is_Some (reg !! a)).
    { intros skip' Hin. destruct (IH skip' ltac:(lia) Hin). split; [lia|done]. }
    repeat case_match; try exact (Hrec _).
    intros [->|Hin]%elem_of_cons; [|by apply (Hrec false)].
    rewrite length_substring by lia. split; [lia|done].
Qed.

Lemma ancestors_shorter reg name a :
  a ∈ ancestors reg name → String.length a < String.length name ∧ is_Some (reg !! a).
Proof. by apply ancestors_from_shorter. Qed.



(** Registering or changing the logger of a name leaves its ancestors as
    they are. *)
Lemma ancestors_from_insert n skip reg name L :
  n ≤ String.length name →
  ancestors_from n skip (<[name := L]> reg) name = ancestors_from n skip reg name.
Proof.
  revert skip. induction n as [|n IH]; intros skip Hn; cbn [ancestors_from]; [done|].
  rewrite !IH by lia.
  assert (<[name := L]> reg !! String.substring 0 n name
          = reg !! String.substring 0 n name) as ->; [|done].
  apply lookup_insert_ne. intros Heq.
  apply (f_equal String.length) in Heq. rewrite length_substring in Heq by lia. lia.
Qed.

Lemma ancestors_insert reg name L :
  ancestors (<[name := L]> reg) name = ancestors reg name.
Proof. by apply ancestors_from_insert. Qed.

End LoggingFacts.

(** ** The monad, logging and checkpoints *)

Section WorldFacts.
Context {tensor : Type} `{!Shaped tensor}.
Implicit Types (w : World tensor) (self : BaseLearner).

Lemma bind_eq {A B} (m : M tensor A) (k : A → M tensor B) w :
  (m ≫= k) w = match m w with
               | (w', Ok a) => k a w'
               | (w', Raise e) => (w', Raise e)
               end.
Proof. unfold mbind, M_bind. by destruct (m w) as [? []]. Qed.

Lemma the_logger_registered w lg L : loggers w !! lg = Some L → the_logger w lg = L.
Proof. unfold the_logger. by intros ->. Qed.

Lemma the_logger_insert w lg L : the_logger (set_loggers <[lg := L]> w) lg = L.
Proof. unfold the_logger; simpl. by rewrite lookup_insert_eq. Qed.

(** *** Removing the old handlers *)

Lemma remove_loop_spec lg old w L :
  loggers w !! lg = Some L →
  foldr (λ hdlr rest, removeHandler lg hdlr ;; rest) (mret tt) old w
  = (set_loggers <[lg := with_handlers L (remove_all old (Logging.handlers L))]> w, Ok tt).
Proof.
  revert w L. induction old as [|h old IH]; intros w L HL; simpl.
  - unfold_M. f_equal. unfold set_loggers, with_handlers. simpl.
    destruct L as [lv hs]; simpl. rewrite insert_id by done. by destruct w.
  - unfold_M. unfold removeHandler at 1, update_logger.
    rewrite (the_logger_registered _ _ _ HL).
    erewrite IH; last by (simpl; apply lookup_insert_eq).
    f_equal. unfold set_loggers; simpl. f_equal.
    by rewrite insert_insert_eq.
Qed.

Lemma remove_handler_in h cur :
  Logging.hid h ∈ Logging.hid <$> cur →
  Logging.hid <$> cur ≡ₚ Logging.hid h :: (Logging.hid <$> Logging.remove_handler h cur).
Proof.
  induction cur as [|c cur IH]; simpl; intros Hin.
  - by apply elem_of_nil in Hin.
  - case_decide as Heq; [by rewrite Heq|].
    apply elem_of_cons in Hin as [Hin|Hin]; [congruence|].
    simpl. rewrite (IH Hin) at 1. apply Permutation_swap.
Qed.

Lemma remove_handler_notin h cur :
  Logging.hid h ∉ Logging.hid <$> cur → Logging.remove_handler h cur = cur.
Proof.
  induction cur as [|c cur IH]; simpl; intros Hin; [done|].
  apply not_elem_of_cons in Hin as [Hne Hin].
  case_decide; [congruence|]. by rewrite IH.
Qed.

(** Removing the handlers of a copy, one by one, from a list that holds no
    more of them than the copy leaves nothing. *)
Lemma remove_all_nil old cur :
  Logging.hid <$> cur ⊆+ Logging.hid <$> old → remove_all old cur = [].
Proof.
  revert cur. induction old as [|h old IH]; intros cur Hsub; simpl in *.
  - apply submseteq_nil_r in Hsub. by apply fmap_nil_inv in Hsub as ->.
  - apply IH.
    destruct (decide (Logging.hid h ∈ Logging.hid <$> cur)) as [Hin|Hin].
    + rewrite (remove_handler_in _ _ Hin) in Hsub.
      by apply (submseteq_app_inv_l _ _ [_]) in Hsub.
    + rewrite (remove_handler_notin _ _ Hin).
      apply submseteq_cons_r in Hsub as [Hsub | (l' & Hp & _)]; [done|].
      exfalso. apply Hin. rewrite Hp. apply elem_of_cons; by left.
Qed.

Lemma remove_all_self hs : remove_all hs hs = [].
Proof. by apply remove_all_nil. Qed.

(** *** [create_logger] *)

Lemma create_logger_spec self p w :
  create_logger self (Some p) w = (after_create_logger p w, Ok (with_logger self p)).
Proof.
  unfold create_logger, after_create_logger.
  rewrite bind_eq. unfold check_and_create_dir at 1, modify at 1. cbv beta iota zeta.
  rewrite bind_eq. unfold RotatingFileHandler at 1. cbv beta iota.
  rewrite bind_eq. unfold getLogger at 1. rewrite bind_eq. unfold modify at 1.
  cbv beta iota. unfold mret at 1, M_ret at 1. cbv beta iota.
  match goal with |- context [set_loggers ?f (set_next_hid S ?w1)] =>
    set (w3 := set_loggers f (set_next_hid S w1)) end.
  assert (∃ L, loggers w3 !! p = Some L) as [L HL].
  { subst w3; simpl. destruct (loggers w !! p) eqn:E; eauto.
    eexists. apply lookup_insert_eq. }
  rewrite bind_eq. unfold setLevel at 1, update_logger at 1. cbv beta iota.
  rewrite bind_eq. unfold handlers_copy at 1. cbv beta iota.
  rewrite the_logger_insert. cbn [Logging.handlers].
  rewrite bind_eq. erewrite remove_loop_spec; last by (simpl; apply lookup_insert_eq).
  cbv beta iota. cbn [with_handlers Logging.level Logging.handlers].
  rewrite (the_logger_registered _ _ _ HL). rewrite remove_all_self.
  rewrite bind_eq. unfold addHandler at 1, update_logger at 1. cbv beta iota.
  rewrite the_logger_insert. cbn [Logging.level Logging.handlers].
  unfold mret, M_ret. f_equal.
  unfold set_loggers; cbn. rewrite !insert_insert_eq. f_equal.
  subst w3; cbn. destruct (loggers w !! p); [done|]. by rewrite insert_insert_eq.
Qed.

Lemma create_logger_None self w : create_logger self None w = (w, Ok self).
Proof. done. Qed.

(** *** [log] *)

Lemma after_log_nil msg w : after_log msg [] w = set_stdout (λ out, out ++ [msg]) w.
Proof. unfold after_log, set_log_lines; simpl. by rewrite app_nil_r. Qed.

Lemma set_stderr_nil w : set_stderr (λ err, err ++ []) w = w.
Proof. destruct w. unfold set_stderr; simpl. by rewrite app_nil_r. Qed.

Lemma Logger_log_spec self lg l msg w0 w :
  logger self = Some lg →
  loggers w0 = loggers w → root_logger w0 = root_logger w →
  Logger_log lg l msg w0
  = (set_stderr (λ err, err ++ last_resort_of self w l msg)
       (set_log_lines (λ old, old ++ lines_of self w l msg) w0), Ok tt).
Proof.
  intros Hlg Hreg Hroot. unfold Logger_log, lines_of, last_resort_of. rewrite Hlg.
  assert (isEnabledFor w0 lg l = isEnabledFor w lg l) as ->.
  { unfold isEnabledFor, logger_chain, the_logger. by rewrite Hreg, Hroot. }
  assert (chain_handlers w0 lg = chain_handlers w lg) as ->.
  { unfold chain_handlers, logger_chain, the_logger. by rewrite Hreg, Hroot. }
  assert (Hnil : set_log_lines (λ old, old ++ []) w0 = w0).
  { destruct w0. unfold set_log_lines; simpl. by rewrite app_nil_r. }
  destruct (isEnabledFor w lg l).
  - destruct (chain_handlers w lg) as [|h hs].
    + cbn [fmap list_fmap]. rewrite Hnil. case_bool_decide; [done|].
      by rewrite set_stderr_nil.
    + by rewrite set_stderr_nil.
  - by rewrite Hnil, set_stderr_nil.
Qed.

(** [log] in full: the message on standard output, the lines of the
    handlers in the log, and what the handler of last resort prints. *)
Lemma log_spec_err self msg lv w :
  log self msg lv w
  = (set_stderr (λ err, err ++ logged_err self w msg lv)
       (after_log msg (logged self w msg lv) w), Ok tt).
Proof.
  unfold log. rewrite bind_eq. unfold print, modify. cbv beta iota.
  unfold logged, logged_err, logged_level.
  destruct (logger self) as [lg|] eqn:Hlg.
  - repeat case_decide;
      try (by erewrite Logger_log_spec);
      by rewrite after_log_nil, set_stderr_nil.
  - unfold lines_of, last_resort_of. rewrite Hlg.
    repeat case_decide; by rewrite after_log_nil, set_stderr_nil.
Qed.

(** Nothing goes to standard error below [WARNING]. *)
Lemma last_resort_of_INFO self w msg : last_resort_of self w Logging.INFO msg = [].
Proof.
  unfold last_resort_of. destruct (logger self); [|done].
  destruct (isEnabledFor _ _ _); [|done]. by destruct (chain_handlers _ _).
Qed.

Lemma log_spec self msg w :
  log self msg "i" w = (after_log msg (logged self w msg "i") w, Ok tt).
Proof.
  rewrite log_spec_err. unfold logged_err. cbn [logged_level decide].
  assert (logged_level "i" = Some Logging.INFO) as -> by done.
  by rewrite last_resort_of_INFO, set_stderr_nil.
Qed.

Lemma lines_of_after_log self msg ls w l msg' :
  lines_of self (after_log msg ls w) l msg' = lines_of self w l msg'.
Proof. done. Qed.

(** The handlers of the chain: those of the logger, then those above it. *)
Lemma chain_handlers_split w lg :
  chain_handlers w lg = Logging.handlers (the_logger w lg) ++ ancestor_handlers w lg.
Proof. done. Qed.

(** A logger at level [INFO] lets the three severities of [log] through,
    whatever the levels above it. *)
Lemma isEnabledFor_INFO w lg l :
  Logging.level (the_logger w lg) = Logging.INFO →
  l = Logging.INFO ∨ l = Logging.WARNING ∨ l = Logging.ERROR →
  isEnabledFor w lg l = true.
Proof.
  intros Hlv Hl. unfold isEnabledFor, logger_chain. cbn [Logging.first_level].
  rewrite Hlv. apply bool_decide_eq_true.
  destruct Hl as [->|[->| ->]]; simpl; lia.
Qed.

Lemma logged_level_cases lv l :
  logged_level lv = Some l →
  l = Logging.INFO ∨ l = Logging.WARNING ∨ l = Logging.ERROR.
Proof.
  unfold logged_level. repeat case_decide; intros [= <-]; auto.
Qed.

Lemma lines_of_enabled self lg w l msg :
  logger self = Some lg →
  Logging.level (the_logger w lg) = Logging.INFO →
  l = Logging.INFO ∨ l = Logging.WARNING ∨ l = Logging.ERROR →
  lines_of self w l msg
  = ((λ h, Logging.emit h l msg) <$> Logging.handlers (the_logger w lg)) ++
    ((λ h, Logging.emit h l msg) <$> ancestor_handlers w lg).
Proof.
  intros Hlg Hlv Hl. unfold lines_of. rewrite Hlg, isEnabledFor_INFO by done.
  by rewrite chain_handlers_split, fmap_app.
Qed.

(** One call of [log] through a logger at level [INFO] with one handler:
    the line of that handler, then one line for each handler above. *)
Lemma log_own_handler self (lg : string) (h : Logging.Handler)
    (l : Logging.Level) (lv msg : string) w :
  logger self = Some lg →
  the_logger w lg = {| Logging.level := Logging.INFO; Logging.handlers := [h] |} →
  logged_level lv = Some l →
  log_lines (log self msg lv w).1
  = log_lines w ++ Logging.emit h l msg ::
                   ((λ a, Logging.emit a l msg) <$> ancestor_handlers w lg).
Proof.
  intros Hlg HL Hlv. rewrite log_spec_err. simpl.
  unfold logged. rewrite Hlv.
  rewrite (lines_of_enabled self lg); [|done|by rewrite HL|by eapply logged_level_cases].
  by rewrite HL.
Qed.

(** [create_logger] leaves the loggers above the one it configures, and
    their handlers, as they are. *)
Lemma ancestor_handlers_after_create (p : string) w :
  ancestor_handlers (after_create_logger p w) p = ancestor_handlers w p.
Proof.
  unfold ancestor_handlers, after_create_logger.
  cbn [loggers root_logger set_loggers set_next_hid set_dirs].
  rewrite LoggingFacts.ancestors_insert. do 3 f_equal.
  apply list_fmap_ext. intros i a Ha%list_elem_of_lookup_2.
  apply LoggingFacts.ancestors_shorter in Ha as [Hlt _].
  unfold the_logger. cbn [loggers set_loggers set_next_hid set_dirs].
  rewrite lookup_insert_ne; [done|]. intros <-. lia.
Qed.

(** *** [state_dict] and [load_state_dict] *)

Lemma state_dict_load_from (sd : OrderedDict.t tensor) (m : nn_Module tensor) prefix :
  state_dict_from prefix (load_from prefix sd m)
  = loaded_entry sd <$> state_dict_from prefix m.
Proof.
  revert prefix. induction m as [ps cs IH] using nn_Module_ind; intros prefix.
  cbn [state_dict_from load_from]. rewrite fmap_app. f_equal.
  - rewrite <- !list_fmap_compose. apply list_fmap_ext. by intros i [n v] _.
  - induction IH as [|[n c] cs Hc _ IHcs]; [done|].
    rewrite fmap_app. simpl in Hc. rewrite Hc. f_equal. apply IHcs.
Qed.



Lemma keys_loaded sd (d : OrderedDict.t tensor) :
  OrderedDict.keys (loaded_entry sd <$> d) = OrderedDict.keys d.
Proof.
  unfold OrderedDict.keys. rewrite <- list_fmap_compose.
  apply list_fmap_ext. by intros i [k v] _.
Qed.

Lemma filter_nil_iff {A} (P : A → Prop) `{∀ x, Decision (P x)} (l : list A) :
  filter P l = [] ↔ ∀ x, x ∈ l → ¬ P x.
Proof.
  split.
  - intros Hnil x Hx HP. assert (x ∈ filter P l) as Hf by by apply list_elem_of_filter.
    rewrite Hnil in Hf. by apply elem_of_nil in Hf.
  - intros Hall. induction l as [|a l IH]; [done|].
    rewrite filter_cons. case_decide as HP.
    + exfalso. eapply Hall; [|done]. by left.
    + apply IH. intros x Hx. apply Hall. by right.
Qed.

Lemma size_mismatches_nil (m : nn_Module tensor) sd :
  shapes_agree m sd ↔ size_mismatches m sd = [].
Proof.
  unfold size_mismatches, shapes_agree. rewrite filter_nil_iff. split.
  - intros Hs [k v] Hin Hmis. unfold size_mismatch in Hmis. cbn [fst snd] in Hmis.
    destruct (OrderedDict.get sd k) as [v'|] eqn:E; [|done].
    apply Is_true_true, bool_decide_eq_true in Hmis. apply Hmis. by eapply Hs.
  - intros Hnone k v v' Hin E.
    destruct (decide (shape v' = shape v)) as [|Hne]; [done|].
    exfalso. apply (Hnone (k, v) Hin). unfold size_mismatch. cbn [fst snd].
    rewrite E. by apply Is_true_true, bool_decide_eq_true.
Qed.


(** ... fails when a value has another shape ... *)
Lemma load_state_dict_size_mismatch w model sd :
  ¬ shapes_agree (deref w model) sd →
  load_state_dict model sd w
  = (set_heap <[model := load_from "" sd (deref w model)]> w, Raise RuntimeError).
Proof.
  intros Hs. unfold load_state_dict.
  destruct (size_mismatches _ sd) as [|e l] eqn:E.
  - exfalso. by apply Hs, size_mismatches_nil.
  - by repeat case_match.
Qed.

(** ... and fails as soon as one key is on one side only. *)
Lemma load_state_dict_fails w model sd k :
  (k ∈ OrderedDict.keys (state_dict (deref w model)) ∧ k ∉ OrderedDict.keys sd) ∨
  (k ∈ OrderedDict.keys sd ∧ k ∉ OrderedDict.keys (state_dict (deref w model))) →
  load_state_dict model sd w
  = (set_heap <[model := load_from "" sd (deref w model)]> w, Raise RuntimeError).
Proof.
  intros Hk. unfold load_state_dict.
  destruct (missing_keys _ sd) as [|k1 l1] eqn:E1; [|done].
  destruct (unexpected_keys _ sd) as [|k2 l2] eqn:E2; [|done].
  exfalso. destruct Hk as [[Hin Hnot]|[Hin Hnot]].
  - eapply filter_nil_iff in E1; [|done]. by apply E1, OrderedDictFacts.get_None.
  - eapply filter_nil_iff in E2; [|done]. by apply E2.
Qed.


Lemma deref_set_heap w model m :
  deref (set_heap <[model := m]> w) model = m.
Proof. unfold deref; simpl. by rewrite lookup_total_insert_eq. Qed.


(** *** [save] and [load] *)

Lemma try_module_state_dict model w :
  try_except (Module_module_state_dict model)
    (λ e, match e with
          | AttributeError => Module_state_dict model
          | _ => raise e
          end) w
  = (w, Ok (saved_state_dict (deref w model))).
Proof.
  unfold try_except, Module_module_state_dict, Module_state_dict, saved_state_dict.
  destruct (getattr_module (deref w model)) as [[v|c]|e] eqn:E; simpl; try done.
  destruct e; try done; exfalso; unfold getattr_module in E;
    destruct (OrderedDict.get (own_params _) _); try done;
    destruct (OrderedDict.get (own_children _) _); done.
Qed.

Lemma save_spec self model out_path w :
  save self (Some model) (Some out_path) w = (after_save self model out_path w, Ok tt).
Proof.
  unfold save, log_default. rewrite bind_eq, log_spec. cbv beta iota.
  rewrite bind_eq, try_module_state_dict. cbv beta iota.
  rewrite bind_eq. unfold check_and_create_dir, torch_save, modify. by cbv beta iota.
Qed.

Lemma load_unfold self model in_path w :
  load self (Some model) (Some in_path) w
  = let msg := "Load model weights from " +:+ in_path in
    try_except (load_direct model in_path) (λ _, load_fallback self model in_path)
      (after_log msg (logged self w msg "i") w).
Proof. unfold load, log_default. by rewrite bind_eq, log_spec. Qed.

Lemma load_direct_spec model in_path w sd :
  files w !! in_path = Some sd →
  load_direct model in_path w = load_state_dict model sd w.
Proof.
  intros Hf. unfold load_direct. rewrite bind_eq. unfold torch_load. by rewrite Hf.
Qed.

(** The fallback, with the two calls of [log] carried out. *)
Lemma load_fallback_unfold self model in_path w :
  load_fallback self model in_path w
  = let msg1 := "Weights were from nn.DataParallel..." in
    let msg2 := "Remove 'module.' prefix from state_dict keys..." in
    (sd ← torch_load in_path ; load_state_dict model (new_state_dict sd))
      (after_log msg2 (logged self w msg2 "i") (after_log msg1 (logged self w msg1 "i") w)).
Proof.
  unfold load_fallback, log_default.
  rewrite bind_eq, log_spec. cbv beta iota. by rewrite bind_eq, log_spec.
Qed.



End WorldFacts.

(** ** The fallback on a prefixed checkpoint *)

Section FallbackFacts.
Context {tensor : Type} `{!Shaped tensor}.
Implicit Types (w : World tensor) (self : BaseLearner).



End FallbackFacts.

(** A dictionary in which some key holds the prefix past its first
    character is not renamed alike by [replace] and by the removal of a
    leading prefix: the two results do not even have the same keys. *)
Lemma renamed_dicts_differ {tensor} (sd : OrderedDict.t tensor) (k : string) :
  k ∈ OrderedDict.keys sd →
  PyStr.occurs_inner "module." k = true →
  ¬ (∀ key, OrderedDict.get (new_state_dict sd) key
            = OrderedDict.get (prefix_stripped_dict sd) key).
Proof.
  intros Hk Hin Heq.
  pose proof (OrderedDictFacts.same_lookups_same_keys _ _ Heq) as Hkeys.
  set (B := max_list (String.length <$> (strip_leading_prefix <$> OrderedDict.keys sd))).
  assert (Hbound : ∀ k1, k1 ∈ OrderedDict.keys sd →
                         String.length (strip_leading_prefix k1) ≤ B).
  { intros k1 Hk1. apply max_list_elem_of_le. by do 2 apply list_elem_of_fmap_2. }
  assert (Hstep : ∀ k1, k1 ∈ OrderedDict.keys sd →
            PyStr.occurs_inner "module." k1 = true →
            ∃ k2, k2 ∈ OrderedDict.keys sd ∧
                  PyStr.occurs_inner "module." k2 = true ∧
                  String.length (strip_leading_prefix k1)
                  < String.length (strip_leading_prefix k2)).
  { intros k1 Hk1 Hin1.
    assert (Hs : strip_leading_prefix k1 ∈ OrderedDict.keys (prefix_stripped_dict sd)).
    { apply OrderedDictFacts.keys_rename_keys. eauto. }
    apply Hkeys, OrderedDictFacts.keys_rename_keys in Hs as (k2 & Hk2 & Hs).
    assert (Hin2 : PyStr.occurs_inner "module." k2 = true).
    { apply PyStrFacts.unprefix_occurs. rewrite <- Hs.
      by apply PyStrFacts.strip_leading_prefix_occurs. }
    exists k2. split; [done|]. split; [done|].
    rewrite Hs. by apply PyStrFacts.unprefix_shorter. }
  enough (Hasc : ∀ d k1, k1 ∈ OrderedDict.keys sd →
            PyStr.occurs_inner "module." k1 = true →
            B - String.length (strip_leading_prefix k1) ≤ d → False).
  { apply (Hasc B k); [done..|lia]. }
  induction d as [|d IH]; intros k1 Hk1 Hin1 Hd;
    destruct (Hstep k1 Hk1 Hin1) as (k2 & Hk2 & Hin2 & Hlt);
    specialize (Hbound k2 Hk2).
  - lia.
  - apply (IH k2); [done..|lia].
Qed.

(** * The claims *)

(** ** C1: saving then loading *)




(** With the names of the saved mapping but a weight of another length, the
    load fails on the sizes, twice. *)
Example save_load_other_shape :
  let w := set_heap (λ _, list_to_map [(0, Sample.linear [1; 2; 3]%Z);
                                        (1, Sample.linear [0; 0]%Z)])
             Sample.empty_world_of_vectors in
  let w1 := (save (init true) (Some 0) (Some "out/fc.pt") w).1 in
  OrderedDict.keys (state_dict (deref w 1)) = OrderedDict.keys (state_dict (deref w 0)) ∧
  (load (init true) (Some 1) (Some "out/fc.pt") w1).2 = Raise RuntimeError ∧
  state_dict (deref (load (init true) (Some 1) (Some "out/fc.pt") w1).1 1)
  = [("fc.weight", [0; 0]%Z)].
Proof. by vm_compute. Qed.


(** ** C2: the fallback on prefixed keys *)

(** C2, at the input where the code departs from it. The checkpoint holds
    one key, ["module.submodule.weight"], for a network whose layer is
    called [submodule]. The direct load fails, the fallback removes both
    occurrences of ["module."] and asks for ["subweight"], and the second
    load fails too: [load] raises and the weight is not loaded. *)
Theorem load_prefixed_inner_occurrence :
  let sd := prefixed [("submodule.weight", 7%Z)] in
  let w := Sample.with_file "ckpt.pt" sd
             (Sample.with_models [(0, Sample.sub_net 0)] Sample.empty_world) in
  OrderedDict.keys sd = ["module.submodule.weight"] ∧
  OrderedDict.keys (state_dict (deref w 0)) = ["submodule.weight"] ∧
  new_state_dict sd = [("subweight", 7%Z)] ∧
  (load (init true) (Some 0) (Some "ckpt.pt") w).2 = Raise RuntimeError ∧
  state_dict (deref (load (init true) (Some 0) (Some "ckpt.pt") w).1 0)
    = [("submodule.weight", 0%Z)].
Proof. by vm_compute. Qed.

(** ** C3: missing arguments *)

(** C3. When the model or the path is [None], [save] and [load] return
    normally and leave the world as it was: no file, no directory, no model
    and no line of output or of a log changes. *)
Theorem save_load_None {tensor} `{!Shaped tensor} (self : BaseLearner)
    (w : World tensor) :
  (∀ path, save self None path w = (w, Ok tt)) ∧
  (∀ model, save self model None w = (w, Ok tt)) ∧
  (∀ path, load self None path w = (w, Ok tt)) ∧
  (∀ model, load self model None w = (w, Ok tt)).
Proof.
  repeat split; try done; by intros [model|].
Qed.

(** ** C4, C5, C6: the augmentation pipeline *)

#[local] Set Warnings "-inexact-float".

Section PipelineFacts.
Import Transforms.

Lemma mean_std_rgb :
  mean_std "rgb" = Some ([Float 127.5; Float 127.5; Float 127.5],
                         [Float 127.5; Float 127.5; Float 127.5]).
Proof. done. Qed.

Lemma mean_std_flow :
  mean_std "flow" = Some ([Float 127.5; Float 127.5], [Float 127.5; Float 127.5]).
Proof. done. Qed.

Lemma mean_std_other mode : mode ≠ "rgb" → mode ≠ "flow" → mean_std mode = None.
Proof. intros. unfold mean_std. by repeat case_decide. Qed.

(** The pipeline for a supported modality, whatever the phase and the
    learner. *)
Lemma get_transform_supported self mode phase mean std cj :
  mean_std mode = Some (mean, std) →
  color_jitter mode = Some cj →
  get_transform self mode phase
  = match image_size self with
    | None => Raise AttributeError
    | Some sz =>
        Ok (Some (ComposeOf
          (if decide (phase = Some "train")
           then [cj;
                 RandomResizedCrop sz (Float 0.9, Int 1) (Float (3 / 4), Float (4 / 3));
                 RandomPerspective (Int 3) (Int 3) (Int 3) (Int 3);
                 RandomHorizontalFlip (Float 0.5);
                 RandomErasing (Float 0.5) (Float 0.002, Float 0.008)
                   (Float 0.3, Float 3.3) "random";
                 RandomErasing (Float 0.5) (Float 0.002, Float 0.008)
                   (Float 0.3, Float 3.3) "random";
                 Normalize mean std]
           else [Resize sz; Normalize mean std])))
    end.
Proof.
  intros Hm Hcj. unfold get_transform, getattr_image_size. rewrite Hm, Hcj.
  destruct (image_size self); by case_decide.
Qed.

End PipelineFacts.

(** C4, amended. On a learner whose [image_size] is set and for the modality
    ["rgb"] or ["flow"]: in phase ["train"] the result composes exactly seven
    steps, in this order: the colour jitter of the modality, the random
    resized crop, the random perspective, the random horizontal flip, the
    random erasing, the same random erasing again, the normalization; in
    any other phase ([None] too) it composes the resize to [image_size] and
    the normalization, and nothing else. *)
Theorem get_transform_shape (self : BaseLearner) (sz : ImageSize) (mode : string)
    (phase : option string) :
  image_size self = Some sz →
  mode = "rgb" ∨ mode = "flow" →
  ∃ cj mean std,
    Transforms.color_jitter mode = Some cj ∧
    Transforms.mean_std mode = Some (mean, std) ∧
    let re := Transforms.RandomErasing (Transforms.Float 0.5)
                (Transforms.Float 0.002, Transforms.Float 0.008)
                (Transforms.Float 0.3, Transforms.Float 3.3) "random" in
    (phase = Some "train" →
     Transforms.get_transform self mode phase
     = Ok (Some (Transforms.ComposeOf
         [cj;
          Transforms.RandomResizedCrop sz (Transforms.Float 0.9, Transforms.Int 1)
            (Transforms.Float (3 / 4), Transforms.Float (4 / 3));
          Transforms.RandomPerspective (Transforms.Int 3) (Transforms.Int 3)
            (Transforms.Int 3) (Transforms.Int 3);
          Transforms.RandomHorizontalFlip (Transforms.Float 0.5);
          re; re;
          Transforms.Normalize mean std]))) ∧
    (phase ≠ Some "train" →
     Transforms.get_transform self mode phase
     = Ok (Some (Transforms.ComposeOf
         [Transforms.Resize sz; Transforms.Normalize mean std]))).
Proof.
  intros Hsz Hmode.
  assert (∃ cj mean std, Transforms.color_jitter mode = Some cj ∧
                         Transforms.mean_std mode = Some (mean, std))
    as (cj & mean & std & Hcj & Hm).
  { destruct Hmode as [-> | ->]; by eexists _, _, _. }
  exists cj, mean, std. split; [done|]. split; [done|].
  cbv zeta. rewrite (get_transform_supported _ _ _ _ _ _ Hm Hcj), Hsz.
  split; intros Hp; by case_decide.
Qed.

(** The training pipeline for colour frames and the evaluation pipeline for
    flow frames, on a learner with images of side 224. *)
Lemma get_transform_shape_witness :
  ∃ cj mean std,
    Transforms.color_jitter "rgb" = Some cj ∧
    Transforms.mean_std "rgb" = Some (mean, std) ∧
    let re := Transforms.RandomErasing (Transforms.Float 0.5)
                (Transforms.Float 0.002, Transforms.Float 0.008)
                (Transforms.Float 0.3, Transforms.Float 3.3) "random" in
    (Some "train" = Some "train" →
     Transforms.get_transform Sample.sized_learner "rgb" (Some "train")
     = Ok (Some (Transforms.ComposeOf
         [cj;
          Transforms.RandomResizedCrop (SizeInt 224)
            (Transforms.Float 0.9, Transforms.Int 1)
            (Transforms.Float (3 / 4), Transforms.Float (4 / 3));
          Transforms.RandomPerspective (Transforms.Int 3) (Transforms.Int 3)
            (Transforms.Int 3) (Transforms.Int 3);
          Transforms.RandomHorizontalFlip (Transforms.Float 0.5);
          re; re;
          Transforms.Normalize mean std]))) ∧
    (Some "train" ≠ Some "train" →
     Transforms.get_transform Sample.sized_learner "rgb" (Some "train")
     = Ok (Some (Transforms.ComposeOf
         [Transforms.Resize (SizeInt 224); Transforms.Normalize mean std]))).
Proof.
  apply (get_transform_shape Sample.sized_learner (SizeInt 224) "rgb" (Some "train")).
  - reflexivity.
  - left. reflexivity.
Defined.

(** C4 as stated fails: on a learner as the constructor leaves it, with no
    [image_size], the call for the training pipeline of colour frames raises
    [AttributeError] and composes nothing. *)
Lemma get_transform_shape_counterexample :
  ¬ pipeline_shape (init true) "rgb" (Some "train").
Proof.
  intros H. destruct (H (or_introl eq_refl)) as [Htrain _].
  destruct (Htrain eq_refl) as (cj & rrc & rp & rhf & re & nm & Heq).
  discriminate Heq.
Qed.

(** C5. For a modality other than ["rgb"] and ["flow"], [get_transform]
    returns [None] in every phase, on every learner; [image_size] is not
    even read. *)
Theorem get_transform_unsupported (self : BaseLearner) (mode : string)
    (phase : option string) :
  mode ≠ "rgb" → mode ≠ "flow" →
  Transforms.get_transform self mode phase = Ok None.
Proof.
  intros Hrgb Hflow. unfold Transforms.get_transform.
  by rewrite mean_std_other.
Qed.

Lemma get_transform_unsupported_witness :
  Transforms.get_transform (init true) "depth" (Some "train") = Ok None.
Proof.
  apply (get_transform_unsupported (init true) "depth" (Some "train")); by vm_compute.
Defined.

(** C6. The normalization constants depend on the modality alone: three
    channels of mean and scale 127.5 for ["rgb"], two channels of the same
    mean and scale for ["flow"], so that the two differ (in the number of
    channels); and the last step of every pipeline built for a modality is
    the normalization by these constants, in every phase and on every
    learner whose [image_size] can be read. *)
Theorem normalization_constants :
  let rgb := [Transforms.Float 127.5; Transforms.Float 127.5; Transforms.Float 127.5] in
  let flow := [Transforms.Float 127.5; Transforms.Float 127.5] in
  Transforms.mean_std "rgb" = Some (rgb, rgb) ∧
  Transforms.mean_std "flow" = Some (flow, flow) ∧
  length rgb = 3 ∧ length flow = 2 ∧
  Transforms.mean_std "rgb" ≠ Transforms.mean_std "flow" ∧
  ∀ (self : BaseLearner) (phase : option string),
    match Transforms.get_transform self "rgb" phase,
          Transforms.get_transform self "flow" phase with
    | Ok (Some c_rgb), Ok (Some c_flow) =>
        last (Transforms.steps c_rgb) = Some (Transforms.Normalize rgb rgb) ∧
        last (Transforms.steps c_flow) = Some (Transforms.Normalize flow flow)
    | Raise e_rgb, Raise e_flow => image_size self = None
    | _, _ => False
    end.
Proof.
  cbv zeta. repeat split; try done.
  intros self phase.
  rewrite (get_transform_supported self "rgb" phase _ _ _ mean_std_rgb eq_refl).
  rewrite (get_transform_supported self "flow" phase _ _ _ mean_std_flow eq_refl).
  destruct (image_size self); [|done]. by case_decide.
Qed.


(** ** C7: what the fallback logs *)




(** ** C8: the hardware flag *)

Lemma step_use_cuda {tensor} `{!Shaped tensor} (c : call) (st : BaseLearner * World tensor) :
  use_cuda (step c st).1 = use_cuda st.1.
Proof.
  destruct st as [self w]. destruct c as [| | | |[p|]]; try done.
  unfold step. by rewrite create_logger_spec.
Qed.

Lemma run_use_cuda {tensor} `{!Shaped tensor} (cs : list call) (st : BaseLearner * World tensor) :
  use_cuda (run cs st).1 = use_cuda st.1.
Proof.
  revert st. induction cs as [|c cs IH]; intros st; [done|].
  unfold run in *. simpl. by rewrite IH, step_use_cuda.
Qed.

(** C8. The constructor tests the function [torch.cuda.is_available], not
    what calling it returns, and a function is true: [use_cuda] is [True]
    whether or not the hardware is there. No method assigns it again: it
    is [True] after every run of calls of [save], [load], [log],
    [get_transform] and [create_logger]. *)
Theorem use_cuda_always_true {tensor} `{!Shaped tensor} (cuda_available : bool)
    (cs : list call) (w : World tensor) :
  (∃ call, torch_cuda_is_available cuda_available = PyFunction call ∧
           call tt = PyBool cuda_available) ∧
  use_cuda (init cuda_available) = true ∧
  use_cuda (run cs (init cuda_available, w)).1 = true.
Proof.
  split; [by eexists|]. split; [done|]. by rewrite run_use_cuda.
Qed.

(** ** C9: creating the logger again *)

Lemma with_logger_twice self p : with_logger (with_logger self p) p = with_logger self p.
Proof. done. Qed.



(** A logger configured under the name of a dotted prefix of the path has a
    handler of its own: a message logged for the path is written to both
    files, once each, however often [create_logger] is called for the
    path. *)
Example create_logger_under_ancestor :
  let w := (create_logger (init true) (Some "run/a") Sample.empty_world).1 in
  let '(w', r) := create_logger_times 3 (init true) (Some "run/a.log") w in
  match r with
  | Ok self' =>
      Logging.ancestors (loggers w') "run/a.log" = ["run/a"] ∧
      length (Logging.handlers (the_logger w' "run/a.log")) = 1 ∧
      Logging.line_file <$> log_lines (log self' "epoch 1" "i" w').1
      = ["run/a.log"; "run/a"]
  | Raise _ => False
  end.
Proof. by vm_compute. Qed.

(** ** C10: every occurrence is removed *)

(** C10. The keys of the mapping the fallback builds are the keys of the
    checkpoint renamed by [replace], and each of its values is the value of
    an entry renamed to its key. [replace] removes the first occurrence of
    ["module."] wherever it stands and goes on behind it, and leaves a key
    without occurrence as it is. So for a checkpoint with a key that holds
    ["module."] past its first character, the renamed key is in the
    mapping, it is shorter than the removal of a leading prefix would leave
    it, which still holds an occurrence, and the mapping the fallback
    builds differs from the one that removal would build: they have not
    even the same keys. *)
Theorem fallback_removes_every_occurrence {tensor} (sd : OrderedDict.t tensor)
    (k : string) :
  k ∈ OrderedDict.keys sd →
  PyStr.occurs_inner "module." k = true →
  (∀ x, x ∈ OrderedDict.keys (new_state_dict sd)
        ↔ ∃ k', k' ∈ OrderedDict.keys sd ∧ x = PyStr.replace k' "module." "") ∧
  (∀ x v, OrderedDict.get (new_state_dict sd) x = Some v →
          ∃ k', (k', v) ∈ sd ∧ x = PyStr.replace k' "module." "") ∧
  (∀ a b, PyStr.occurs "module." a = false →
          PyStr.replace (a +:+ "module." +:+ b) "module." ""
          = a +:+ PyStr.replace b "module." "") ∧
  (∀ a, PyStr.occurs "module." a = false → PyStr.replace a "module." "" = a) ∧
  PyStr.replace k "module." "" ∈ OrderedDict.keys (new_state_dict sd) ∧
  String.length (PyStr.replace k "module." "")
    < String.length (strip_leading_prefix k) ∧
  PyStr.replace k "module." "" ≠ strip_leading_prefix k ∧
  PyStr.occurs "module." (strip_leading_prefix k) = true ∧
  ¬ (∀ key, OrderedDict.get (new_state_dict sd) key
            = OrderedDict.get (prefix_stripped_dict sd) key).
Proof.
  intros Hk Hin.
  assert (Hkeys : ∀ x, x ∈ OrderedDict.keys (new_state_dict sd)
                       ↔ ∃ k', k' ∈ OrderedDict.keys sd ∧ x = PyStr.replace k' "module." "")
    by (intros x; apply OrderedDictFacts.keys_rename_keys).
  split; [done|]. split.
  { intros x v Hx. unfold new_state_dict in Hx.
    rewrite OrderedDictFacts.rename_keys_foldl in Hx.
    destruct (OrderedDictMore.foldl_rename_invariant
                (λ k, PyStr.replace k "module." "") sd []) as (_ & _ & Hget);
      [apply NoDup_nil_2|].
    rewrite Hget in Hx.
    destruct (OrderedDict.get (reverse _) x) as [v'|] eqn:E; [|done].
    injection Hx as ->.
    apply OrderedDictMore.get_Some_elem, elem_of_reverse, list_elem_of_fmap in E
      as ([k' v'] & [= -> ->] & Hin').
    by exists k'. }
  split; [intros a b Ha; by apply PyStrFacts.unprefix_first_occurrence|].
  split; [apply PyStrFacts.unprefix_id|].
  split; [apply Hkeys; by exists k|].
  split; [by apply PyStrFacts.unprefix_shorter|].
  split; [by apply PyStrFacts.unprefix_ne_strip|].
  split; [by apply PyStrFacts.strip_leading_prefix_occurs|].
  by eapply renamed_dicts_differ.
Qed.

(** A key with the prefix in front and once more inside. *)
Lemma fallback_removes_every_occurrence_witness :
  let k := "module.a.module.b" in
  let sd : OrderedDict.t Z := [(k, 1%Z)] in
  (∀ x, x ∈ OrderedDict.keys (new_state_dict sd)
        ↔ ∃ k', k' ∈ OrderedDict.keys sd ∧ x = PyStr.replace k' "module." "") ∧
  (∀ x v, OrderedDict.get (new_state_dict sd) x = Some v →
          ∃ k', (k', v) ∈ sd ∧ x = PyStr.replace k' "module." "") ∧
  (∀ a b, PyStr.occurs "module." a = false →
          PyStr.replace (a +:+ "module." +:+ b) "module." ""
          = a +:+ PyStr.replace b "module." "") ∧
  (∀ a, PyStr.occurs "module." a = false → PyStr.replace a "module." "" = a) ∧
  PyStr.replace k "module." "" ∈ OrderedDict.keys (new_state_dict sd) ∧
  String.length (PyStr.replace k "module." "")
    < String.length (strip_leading_prefix k) ∧
  PyStr.replace k "module." "" ≠ strip_leading_prefix k ∧
  PyStr.occurs "module." (strip_leading_prefix k) = true ∧
  ¬ (∀ key, OrderedDict.get (new_state_dict sd) key
            = OrderedDict.get (prefix_stripped_dict sd) key).
Proof.
  intros k sd. apply (fallback_removes_every_occurrence sd k).
  - vm_compute. left.
  - reflexivity.
Defined.

(** ** Examples *)

Example replace_prefix : PyStr.replace "module.conv.weight" "module." "" = "conv.weight".
Proof. reflexivity. Qed.

Example replace_inner : PyStr.replace "module.a.module.b" "module." "" = "a.b".
Proof. reflexivity. Qed.

Example replace_once : PyStr.replace "modmodule.ule.x" "module." "" = "module.x".
Proof. reflexivity. Qed.

Example replace_empty_old : PyStr.replace "ab" "" "-" = "-a-b-".
Proof. reflexivity. Qed.

Example strip_inner : strip_leading_prefix "module.a.module.b" = "a.module.b".
Proof. reflexivity. Qed.

Example state_dict_wrapped :
  state_dict (DataParallel (Sample.net 1 2))
  = [("module.conv.weight", 1%Z); ("module.conv.bias", 2%Z)].
Proof. reflexivity. Qed.

Example dirname_log : OsPath.dirname "../log/Learner.log" = "../log".
Proof. reflexivity. Qed.


(** * Further properties of the methods *)

(** ** [log] *)

(** X1. [log] never fails and prints its message once, whatever the level and
    whether or not there is a logger; it touches no model, no file and no
    logger, and every line it adds to a log file carries the message. *)
Theorem log_prints_once {tensor} (self : BaseLearner) (msg lv : string)
    (w : World tensor) :
  (log self msg lv w).2 = Ok tt ∧
  stdout (log self msg lv w).1 = stdout w ++ [msg] ∧
  heap (log self msg lv w).1 = heap w ∧
  files (log self msg lv w).1 = files w ∧
  loggers (log self msg lv w).1 = loggers w ∧
  ∃ ls, log_lines (log self msg lv w).1 = log_lines w ++ ls ∧
        Forall (λ l, Logging.line_msg l = msg) ls.
Proof.
  rewrite log_spec_err. simpl. repeat split; try done.
  exists (logged self w msg lv). split; [done|].
  unfold logged, lines_of. repeat case_match; try done.
  by apply Forall_fmap, Forall_true.
Qed.

(** X2. With a level other than ["i"], ["w"] and ["e"] the message is
    printed and no line is written to the log file, logger or not. *)
Theorem log_unknown_level {tensor} (self : BaseLearner) (msg lv : string)
    (w : World tensor) :
  lv ≠ "i" → lv ≠ "w" → lv ≠ "e" →
  log_lines (log self msg lv w).1 = log_lines w ∧
  stdout (log self msg lv w).1 = stdout w ++ [msg].
Proof.
  intros Hi Hw He. rewrite log_spec_err. simpl.
  unfold logged, logged_level. repeat case_decide; try done.
  by rewrite app_nil_r.
Qed.

Lemma log_unknown_level_witness :
  let self := with_logger (init true) "log/L.log" in
  let w := after_create_logger "log/L.log" Sample.empty_world in
  log_lines (log self "note" "d" w).1 = log_lines w ∧
  stdout (log self "note" "d" w).1 = stdout w ++ ["note"].
Proof.
  intros self w. apply (log_unknown_level self "note" "d" w); by vm_compute.
Defined.

(** X3. Without a logger, as after the constructor, [log] only prints:
    the rest of the world stays as it is, at every level. *)
Theorem log_without_logger {tensor} (self : BaseLearner) (msg lv : string)
    (w : World tensor) :
  logger self = None →
  log self msg lv w = (set_stdout (λ out, out ++ [msg]) w, Ok tt).
Proof.
  intros Hl. rewrite log_spec_err.
  unfold logged, logged_err, lines_of, last_resort_of. rewrite Hl.
  destruct (logged_level lv); by rewrite after_log_nil, set_stderr_nil.
Qed.

Lemma log_without_logger_witness :
  log (init false) "epoch 1" "w" Sample.empty_world
  = (set_stdout (λ out, out ++ ["epoch 1"]) Sample.empty_world, Ok tt).
Proof. apply (log_without_logger (init false) "epoch 1" "w" Sample.empty_world). reflexivity. Defined.

(** ** [save] *)

Lemma string_app_assoc (p q r : string) : (p +:+ q) +:+ r = p +:+ (q +:+ r).
Proof.
  induction p as [|a p IH]; [done|]. by rewrite !PyStrFacts.app_cons, IH.
Qed.

(** The entries under a longer prefix are the entries under the shorter one,
    with the difference put in front of every key. *)
Lemma state_dict_from_app {tensor} (p q : string) (m : nn_Module tensor) :
  state_dict_from (p +:+ q) m = prod_map (λ k, p +:+ k) id <$> state_dict_from q m.
Proof.
  revert q. induction m as [ps cs IH] using nn_Module_ind; intros q.
  cbn [state_dict_from]. rewrite fmap_app. f_equal.
  - rewrite <- list_fmap_compose. apply list_fmap_ext. intros i [n v] _.
    unfold compose, prod_map. cbn [fst snd id]. by rewrite string_app_assoc.
  - induction IH as [|[n c] cs Hc _ IHcs]; [done|].
    rewrite fmap_app. f_equal; [|apply IHcs].
    cbn [snd] in Hc. rewrite <- Hc. f_equal. by rewrite !string_app_assoc.
Qed.

Lemma state_dict_DataParallel {tensor} (m : nn_Module tensor) :
  state_dict (DataParallel m) = prefixed (state_dict m).
Proof.
  unfold state_dict, DataParallel. cbn [state_dict_from fmap list_fmap app].
  rewrite app_nil_r.
  change ("" +:+ "module" +:+ ".") with ("module." +:+ ""). apply state_dict_from_app.
Qed.


(** X6. The keys of a [DataParallel] wrapper are those of the wrapped model
    with ["module."] in front, and [save] writes the mapping of the wrapped
    model, without the prefix. *)
Theorem save_unwraps_DataParallel {tensor} (self : BaseLearner) (model : nat)
    (path : string) (m : nn_Module tensor) (w : World tensor) :
  deref w model = DataParallel m →
  state_dict (deref w model) = prefixed (state_dict m) ∧
  files (save self (Some model) (Some path) w).1 !! path = Some (state_dict m).
Proof.
  intros Hm. split.
  - rewrite Hm. apply state_dict_DataParallel.
  - rewrite save_spec. unfold after_save. simpl. by rewrite lookup_insert_eq, Hm.
Qed.

Lemma save_unwraps_DataParallel_witness :
  let w := Sample.with_models [(0, DataParallel (Sample.net 1 2))] Sample.empty_world in
  state_dict (deref w 0) = prefixed (state_dict (Sample.net 1 2)) ∧
  files (save (init true) (Some 0) (Some "out/net.pt") w).1 !! "out/net.pt"
  = Some (state_dict (Sample.net 1 2)).
Proof.
  intros w. apply (save_unwraps_DataParallel (init true) 0 "out/net.pt" (Sample.net 1 2) w).
  reflexivity.
Defined.

(** X7. A model with no child called [module] is saved with its own mapping,
    also when one of its parameters has that name. *)
Theorem save_bare_model {tensor} (self : BaseLearner) (model : nat)
    (path : string) (w : World tensor) :
  OrderedDict.get (own_children (deref w model)) "module" = None →
  files (save self (Some model) (Some path) w).1 !! path
  = Some (state_dict (deref w model)).
Proof.
  intros Hc. rewrite save_spec. unfold after_save. simpl. rewrite lookup_insert_eq.
  f_equal. unfold saved_state_dict, getattr_module. rewrite Hc.
  by destruct (OrderedDict.get (own_params _) _).
Qed.

Lemma save_bare_model_witness :
  let w := Sample.with_models [(0, Sample.net 1 2)] Sample.empty_world in
  files (save (init true) (Some 0) (Some "out/net.pt") w).1 !! "out/net.pt"
  = Some (state_dict (deref w 0)).
Proof.
  intros w. apply (save_bare_model (init true) 0 "out/net.pt" w). reflexivity.
Defined.

(** ** [load] *)

Section LoadFacts.
Context {tensor : Type} `{!Shaped tensor}.
Implicit Types (w : World tensor) (self : BaseLearner) (sd : OrderedDict.t tensor).

(** Whatever its outcome, a strict load leaves the same world. *)
Lemma load_state_dict_world (model : nat) sd w :
  (load_state_dict model sd w).1
  = set_heap <[model := load_from "" sd (deref w model)]> w.
Proof. unfold load_state_dict. by repeat case_match. Qed.

Lemma keys_load_from sd (m : nn_Module tensor) :
  OrderedDict.keys (state_dict (load_from "" sd m)) = OrderedDict.keys (state_dict m).
Proof. unfold state_dict. by rewrite state_dict_load_from, keys_loaded. Qed.


(** A renaming that changes no key gives the dictionary back. *)
Lemma new_state_dict_id sd :
  NoDup (OrderedDict.keys sd) →
  (∀ k, k ∈ OrderedDict.keys sd → PyStr.occurs "module." k = false) →
  new_state_dict sd = sd.
Proof.
  intros Hnd Hocc. unfold new_state_dict.
  assert (Hk : (λ k, PyStr.replace k "module." "") <$> OrderedDict.keys sd
               = OrderedDict.keys sd).
  { rewrite <- (list_fmap_id (OrderedDict.keys sd)) at 2.
    apply list_fmap_ext. intros i k Hi.
    apply PyStrFacts.unprefix_id, Hocc. by eapply list_elem_of_lookup_2. }
  rewrite OrderedDictFacts.rename_keys_fresh by by rewrite Hk.
  rewrite <- (list_fmap_id sd) at 2.
  apply list_fmap_ext. intros i [k v] Hi. unfold prod_map. cbn [fst snd id].
  f_equal. apply PyStrFacts.unprefix_id, Hocc.
  apply list_elem_of_fmap. exists (k, v). split; [done|]. by eapply list_elem_of_lookup_2.
Qed.


(** X10. A checkpoint whose keys do not hold ["module."] and do not match
    those of the model is not repaired by the fallback: the renaming gives
    the same mapping, the second load fails as the first did, and [load]
    raises [RuntimeError] after the three lines. *)
Theorem load_mismatch_raises self (model : nat) (path : string) sd (k : string) w :
  files w !! path = Some sd →
  NoDup (OrderedDict.keys sd) →
  (∀ k', k' ∈ OrderedDict.keys sd → PyStr.occurs "module." k' = false) →
  (k ∈ OrderedDict.keys (state_dict (deref w model)) ∧ k ∉ OrderedDict.keys sd) ∨
  (k ∈ OrderedDict.keys sd ∧ k ∉ OrderedDict.keys (state_dict (deref w model))) →
  (load self (Some model) (Some path) w).2 = Raise RuntimeError ∧
  stdout (load self (Some model) (Some path) w).1
    = stdout w ++ ["Load model weights from " +:+ path;
                   "Weights were from nn.DataParallel...";
                   "Remove 'module.' prefix from state_dict keys..."].
Proof.
  intros Hf Hnd Hocc Hk. rewrite load_unfold. cbv zeta. unfold try_except.
  erewrite load_direct_spec; [|exact Hf].
  rewrite (load_state_dict_fails _ _ _ k) by done.
  rewrite load_fallback_unfold. cbv zeta. rewrite bind_eq.
  unfold torch_load. cbn [files after_log set_log_lines set_stdout set_heap].
  rewrite Hf, new_state_dict_id by done.
  rewrite (load_state_dict_fails _ _ _ k).
  - simpl. split; [done|]. by rewrite <- !app_assoc.
  - unfold deref. cbn [heap after_log set_log_lines set_stdout set_heap].
    rewrite lookup_total_insert_eq, keys_load_from. exact Hk.
Qed.


Lemma touches_only_trans model w1 w2 w3 :
  touches_only model w1 w2 → touches_only model w2 w3 → touches_only model w1 w3.
Proof.
  intros (A1 & A2 & A3 & A4 & A5) (B1 & B2 & B3 & B4 & B5).
  repeat split; congruence.
Qed.

Lemma touches_only_after_log model msg ls w : touches_only model w (after_log msg ls w).
Proof. by repeat split. Qed.

Lemma load_state_dict_touches (model : nat) sd w :
  touches_only model w (load_state_dict model sd w).1.
Proof.
  rewrite load_state_dict_world. repeat split; try done.
  by rewrite deref_set_heap, keys_load_from.
Qed.

Lemma retry_touches (f : OrderedDict.t tensor → OrderedDict.t tensor)
    (model : nat) (path : string) w :
  touches_only model w ((sd ← torch_load path ; load_state_dict model (f sd)) w).1.
Proof.
  rewrite bind_eq. unfold torch_load.
  destruct (files w !! path) as [sd|]; [|by repeat split].
  pose proof (load_state_dict_touches model (f sd) w) as H.
  by destruct (load_state_dict model (f sd) w) as [w2 []].
Qed.

Lemma load_direct_touches (model : nat) (path : string) w :
  touches_only model w (load_direct model path w).1.
Proof. apply (retry_touches id). Qed.

Lemma load_fallback_touches self (model : nat) (path : string) w :
  touches_only model w (load_fallback self model path w).1.
Proof.
  rewrite load_fallback_unfold. cbv zeta.
  eapply touches_only_trans; [|apply retry_touches].
  eapply touches_only_trans; apply touches_only_after_log.
Qed.

(** X12. Whatever its outcome, [load] changes no checkpoint file, no
    directory and no logger, and the model it is given keeps its keys:
    values are copied into the entries there are. *)
Theorem load_frame self (model : nat) (path : string) w :
  let w' := (load self (Some model) (Some path) w).1 in
  files w' = files w ∧ dirs w' = dirs w ∧
  loggers w' = loggers w ∧ root_logger w' = root_logger w ∧
  OrderedDict.keys (state_dict (deref w' model))
  = OrderedDict.keys (state_dict (deref w model)).
Proof.
  cbv zeta. change (touches_only model w (load self (Some model) (Some path) w).1).
  rewrite load_unfold. cbv zeta. unfold try_except.
  set (w0 := after_log _ _ w).
  apply (touches_only_trans model w w0); [apply touches_only_after_log|].
  pose proof (load_direct_touches model path w0) as Hd.
  destruct (load_direct model path w0) as [wd [[]|e]]; cbn [fst] in *; [exact Hd|].
  eapply touches_only_trans; [exact Hd|]. apply load_fallback_touches.
Qed.
End LoadFacts.


Lemma NoDup_sample_keys : NoDup ["conv.weight"; "conv.bias"].
Proof. apply NoDup_cons. split; [|apply NoDup_singleton]. by intros ?%list_elem_of_singleton. Qed.

Lemma sample_keys_plain k :
  k ∈ ["conv.weight"; "conv.bias"] → PyStr.occurs "module." k = false.
Proof. intros [->|[->|[]%elem_of_nil]%elem_of_cons]%elem_of_cons; reflexivity. Qed.

Lemma load_mismatch_raises_witness :
  let w := Sample.with_file "other.pt" [("conv.weight", 5%Z); ("conv.bias", 6%Z)]
             (Sample.with_models [(0, Sample.sub_net 0)] Sample.empty_world) in
  (load (init true) (Some 0) (Some "other.pt") w).2 = Raise RuntimeError ∧
  stdout (load (init true) (Some 0) (Some "other.pt") w).1
    = stdout w ++ ["Load model weights from " +:+ "other.pt";
                   "Weights were from nn.DataParallel...";
                   "Remove 'module.' prefix from state_dict keys..."].
Proof.
  intros w.
  apply (load_mismatch_raises (init true) 0 "other.pt"
           [("conv.weight", 5%Z); ("conv.bias", 6%Z)] "conv.weight" w).
  - reflexivity.
  - exact NoDup_sample_keys.
  - exact sample_keys_plain.
  - right. split; [by left|].
    by intros [=]%list_elem_of_singleton.
Defined.



(** ** The mapping of the fallback *)


(** X13. The mapping the fallback builds has no key twice and no more
    entries than the checkpoint; when two keys are renamed to the same one,
    the value of the later entry is kept. *)
Theorem new_state_dict_last_wins {tensor} (sd : OrderedDict.t tensor) :
  NoDup (OrderedDict.keys (new_state_dict sd)) ∧
  length (new_state_dict sd) ≤ length sd ∧
  ∀ x, OrderedDict.get (new_state_dict sd) x
       = OrderedDict.get
           (reverse (prod_map (λ k, PyStr.replace k "module." "") id <$> sd)) x.
Proof.
  unfold new_state_dict. rewrite OrderedDictFacts.rename_keys_foldl.
  destruct (OrderedDictMore.foldl_rename_invariant
              (λ k, PyStr.replace k "module." "") sd []) as (H1 & H2 & H3);
    [apply NoDup_nil_2|].
  split; [done|]. split; [done|]. intros x. rewrite H3. by case_match.
Qed.

Example new_state_dict_collision :
  new_state_dict [("module.fc.weight", 1%Z); ("fc.weight", 2%Z); ("fc.bias", 3%Z)]
  = [("fc.weight", 2%Z); ("fc.bias", 3%Z)].
Proof. reflexivity. Qed.

(** ** [create_logger] *)

Section CreateLoggerFacts.
Context {tensor : Type} `{!Shaped tensor}.
Implicit Types (w : World tensor) (self : BaseLearner).


Lemma the_logger_after_create (p : string) w :
  the_logger (after_create_logger p w) p
  = {| Logging.level := Logging.INFO;
       Logging.handlers := [new_handler p (next_hid w)] |}.
Proof. apply the_logger_insert. Qed.

(** X15. Two learners that create a logger for the same path share it: the
    second call removes the handler the first call installed, and a message
    logged by the first learner is written by the handler of the second,
    once, before the handlers above the logger write theirs. *)
Theorem create_logger_shared self1 self2 (path msg : string) w :
  let '(w1, r1) := create_logger self1 (Some path) w in
  let '(w2, r2) := create_logger self2 (Some path) w1 in
  ∃ first second,
    Logging.handlers (the_logger w1 path) = [first] ∧
    Logging.handlers (the_logger w2 path) = [second] ∧
    Logging.hid first ≠ Logging.hid second ∧
    match r1 with
    | Ok self1' =>
        log_lines (log self1' msg "i" w2).1
        = log_lines w2 ++ Logging.emit second Logging.INFO msg ::
                          ((λ a, Logging.emit a Logging.INFO msg)
                             <$> ancestor_handlers w path)
    | Raise _ => False
    end.
Proof.
  rewrite create_logger_spec. cbv beta iota.
  rewrite create_logger_spec. cbv beta iota.
  exists (new_handler path (next_hid w)), (new_handler path (S (next_hid w))).
  rewrite !the_logger_after_create.
  split; [done|]. split; [done|]. split; [simpl; lia|].
  rewrite <- (ancestor_handlers_after_create path w).
  rewrite <- (ancestor_handlers_after_create path (after_create_logger path w)).
  eapply log_own_handler; [done| |done]. by rewrite the_logger_after_create.
Qed.







End CreateLoggerFacts.


(** ** [get_transform] *)

Lemma step_image_size {tensor} `{!Shaped tensor} (c : call) (st : BaseLearner * World tensor) :
  image_size (step c st).1 = image_size st.1.
Proof.
  destruct st as [self w]. destruct c as [| | | |[p|]]; try done.
  unfold step. by rewrite create_logger_spec.
Qed.

Lemma run_image_size {tensor} `{!Shaped tensor} (cs : list call) (st : BaseLearner * World tensor) :
  image_size (run cs st).1 = image_size st.1.
Proof.
  revert st. induction cs as [|c cs IH]; intros st; [done|].
  unfold run in *. simpl. by rewrite IH, step_image_size.
Qed.

(** X17. No method of the base class sets [image_size]: on a learner that
    has none, as the constructor leaves it, [get_transform] raises
    [AttributeError] for both modalities in every phase, after any run of
    calls of the five methods. *)
Theorem get_transform_needs_image_size {tensor} `{!Shaped tensor} (self : BaseLearner)
    (cs : list call) (w : World tensor) (mode : string) (phase : option string) :
  image_size self = None →
  mode = "rgb" ∨ mode = "flow" →
  Transforms.get_transform (run cs (self, w)).1 mode phase = Raise AttributeError.
Proof.
  intros Hsz Hmode.
  assert (∃ cj mean std, Transforms.color_jitter mode = Some cj ∧
                         Transforms.mean_std mode = Some (mean, std))
    as (cj & mean & std & Hcj & Hm).
  { destruct Hmode as [-> | ->]; by eexists _, _, _. }
  rewrite (get_transform_supported _ _ _ _ _ _ Hm Hcj), run_image_size.
  cbn [fst]. by rewrite Hsz.
Qed.

Lemma get_transform_needs_image_size_witness :
  Transforms.get_transform
    (run [CallCreateLogger (Some "log/L.log"); CallLog "start" "i"]
       (init true, Sample.empty_world)).1 "flow" (Some "train")
  = Raise AttributeError.
Proof.
  apply (get_transform_needs_image_size (init true)
           [CallCreateLogger (Some "log/L.log"); CallLog "start" "i"]
           Sample.empty_world "flow" (Some "train")).
  - reflexivity.
  - right. reflexivity.
Defined.

(** X18. Every phase other than ["train"] gives what no phase gives: the
    comparison is with that one string, exactly. *)
Theorem get_transform_other_phases (self : BaseLearner) (mode : string)
    (phase : option string) :
  phase ≠ Some "train" →
  Transforms.get_transform self mode phase = Transforms.get_transform self mode None.
Proof.
  intros Hp. unfold Transforms.get_transform.
  destruct (Transforms.mean_std mode) as [[mean std]|]; [|done].
  rewrite decide_False by done. by rewrite decide_False.
Qed.

Lemma get_transform_other_phases_witness :
  Transforms.get_transform Sample.sized_learner "rgb" (Some "Train")
  = Transforms.get_transform Sample.sized_learner "rgb" None.
Proof.
  apply (get_transform_other_phases Sample.sized_learner "rgb" (Some "Train")).
  by vm_compute.
Defined.

#[local] Set Warnings "-inexact-float".

(** X19. The training pipelines of the two modalities differ in their first
    and last steps only: the colour jitter has saturation and hue for
    ["rgb"] and neither for ["flow"], the normalizations differ, and the
    five steps between are the same. *)
Theorem train_pipelines_share_steps (self : BaseLearner) (sz : ImageSize) :
  image_size self = Some sz →
  ∃ cj_rgb cj_flow middle nm_rgb nm_flow,
    Transforms.get_transform self "rgb" (Some "train")
      = Ok (Some (Transforms.ComposeOf (cj_rgb :: middle ++ [nm_rgb]))) ∧
    Transforms.get_transform self "flow" (Some "train")
      = Ok (Some (Transforms.ComposeOf (cj_flow :: middle ++ [nm_flow]))) ∧
    length middle = 5 ∧
    cj_rgb = Transforms.ColorJitter (Some (Transforms.Float 0.3))
               (Some (Transforms.Float 0.3)) (Some (Transforms.Float 0.3))
               (Some (Transforms.Float (-0.1), Transforms.Float 0.1)) ∧
    cj_flow = Transforms.ColorJitter (Some (Transforms.Float 0.3))
                (Some (Transforms.Float 0.3)) None None ∧
    nm_rgb ≠ nm_flow.
Proof.
  intros Hsz.
  rewrite (get_transform_supported self "rgb" _ _ _ _ mean_std_rgb eq_refl).
  rewrite (get_transform_supported self "flow" _ _ _ _ mean_std_flow eq_refl).
  rewrite Hsz. rewrite !decide_True by done.
  eexists _, _, [_; _; _; _; _], _, _. by repeat split.
Qed.

Lemma train_pipelines_share_steps_witness :
  ∃ cj_rgb cj_flow middle nm_rgb nm_flow,
    Transforms.get_transform Sample.sized_learner "rgb" (Some "train")
      = Ok (Some (Transforms.ComposeOf (cj_rgb :: middle ++ [nm_rgb]))) ∧
    Transforms.get_transform Sample.sized_learner "flow" (Some "train")
      = Ok (Some (Transforms.ComposeOf (cj_flow :: middle ++ [nm_flow]))) ∧
    length middle = 5 ∧
    cj_rgb = Transforms.ColorJitter (Some (Transforms.Float 0.3))
               (Some (Transforms.Float 0.3)) (Some (Transforms.Float 0.3))
               (Some (Transforms.Float (-0.1), Transforms.Float 0.1)) ∧
    cj_flow = Transforms.ColorJitter (Some (Transforms.Float 0.3))
                (Some (Transforms.Float 0.3)) None None ∧
    nm_rgb ≠ nm_flow.
Proof.
  apply (train_pipelines_share_steps Sample.sized_learner (SizeInt 224)). reflexivity.
Defined.
